(** * Weed-Detector: the live-inference pipeline

    A shallow embedding of [src/types.ts], [src/services/geminiService.ts]
    and the live part of [src/App.tsx] (device selection, camera toggle,
    the sampling effect, reconciliation of results, the visibility filter).

    JavaScript numbers are IEEE-754 binary64 values: they are modelled by
    Rocq's primitive floats.  JavaScript [Set<string>] values are modelled
    by [gset string]; only membership is observed by the code in scope.
    Completion records ([Normal]/[Throw]) model [try]/[catch].  React state
    is the record [AppState]; the closure created by the sampling effect is
    the record [Effect], which holds the values it closed over.  An
    [await] splits its handler in two events, what runs up to it and what
    runs when the awaited promise settles, and other events may come
    between the two: the [World] keeps the calls of [analyzeWeedImage] and
    the requests of [getUserMedia] that are not yet settled. *)

From Stdlib Require Import PrimFloat ZArith Ascii String.
From stdpp Require Import gmap strings list.

Local Open Scope string_scope.
Local Open Scope float_scope.
Local Open Scope nat_scope.

(* ===================================================================== *)
(** ** JavaScript preliminaries                                           *)
(* ===================================================================== *)

(** [error.status] is absent, a number or a string. *)
Inductive ErrStatus :=
| StatusAbsent
| StatusNumber (n : Z)
| StatusString (s : string).

(** The part of a thrown value that the code inspects. *)
Record JsError := { message : option string; status : ErrStatus }.

Definition Error (msg : string) : JsError :=
  {| message := Some msg; status := StatusAbsent |}.

(** Outcome of evaluating a block, or of awaiting a promise. *)
Inductive completion (A : Type) :=
| Normal (a : A)
| Throw (e : JsError).
Arguments Normal {A} a.
Arguments Throw {A} e.

(** [try { body } catch (e) { handler }] *)
Definition try_catch {A} (body : completion A) (handler : JsError → completion A)
  : completion A :=
  match body with
  | Normal a => Normal a
  | Throw e => handler e
  end.

(** [String.prototype.toLowerCase], on the ASCII letters. *)
Definition ascii_toLowerCase (c : ascii) : ascii :=
  let n := nat_of_ascii c in
  if (65 <=? n) && (n <=? 90) then ascii_of_nat (n + 32) else c.

Fixpoint toLowerCase (s : string) : string :=
  match s with
  | EmptyString => EmptyString
  | String c s' => String (ascii_toLowerCase c) (toLowerCase s')
  end.

(** [s.includes(sub)] *)
Fixpoint includes (sub s : string) : bool :=
  if String.prefix sub s then true
  else match s with
       | EmptyString => false
       | String _ s' => includes sub s'
       end.

(* ===================================================================== *)
(** ** types.ts                                                           *)
(* ===================================================================== *)

(** [bbox?: number[]] is [ymin, xmin, ymax, xmax], normalised to 0-1. *)
Record DetectionResult := {
  weedType : string;
  confidence : float;
  bbox : option (list float);
  description : string
}.

Inductive CropContext := Cotton | Beet | Unknown.
Inductive WeedDensity := Low | Medium | High.

(** The declared type of [detections] is [DetectionResult[]]; both the
    service and the application test it for truthiness, so a parsed
    response may lack it: [None]. *)
Record EcoAnalysis := {
  cropContext : CropContext;
  weedDensity : WeedDensity;
  remediationAdvice : string;
  estimatedYieldLoss : float;
  herbicideDosage : float;
  detections : option (list DetectionResult)
}.

(* ===================================================================== *)
(** ** services/geminiService.ts                                          *)
(* ===================================================================== *)

Module geminiService.

(** ['Cotton' | 'Beet'] *)
Inductive DatasetContext := DatasetCotton | DatasetBeet.

Definition as_cropContext (d : DatasetContext) : CropContext :=
  match d with DatasetCotton => Cotton | DatasetBeet => Beet end.

(** A detection as the model returns it: the box arrives as [box_2d],
    possibly also (or instead) as [bbox]. *)
Record RawDetection := {
  raw_weedType : string;
  raw_confidence : float;
  raw_description : string;
  box_2d : option (list float);
  raw_bbox : option (list float)
}.

(** [data.detections] after [JSON.parse]: falsy, a truthy value without
    [.map], or an array. *)
Inductive RawDetections :=
| DetFalsy
| DetNotArray
| DetArray (ds : list RawDetection).

Record RawAnalysis := {
  raw_cropContext : CropContext;
  raw_weedDensity : WeedDensity;
  raw_remediationAdvice : string;
  raw_estimatedYieldLoss : float;
  raw_herbicideDosage : float;
  raw_detections : RawDetections
}.

(** What [JSON.parse(cleanText)] returned: [null] or an object. *)
Inductive Parsed :=
| ParsedNull
| ParsedObject (data : RawAnalysis).

(** How the remote call went, as far as the [try] block can tell:
    [ai.models.generateContent] rejected; it answered without text; the
    cleaned text made [JSON.parse] throw; or it parsed. *)
Inductive GeminiOutcome :=
| CallRejected (e : JsError)
| NoText
| ParseThrows (e : JsError)
| ParseReturns (p : Parsed).

(** [{ ...d, bbox: d.box_2d || d.bbox }]: arrays are truthy, also empty
    ones. *)
Definition with_bbox (d : RawDetection) : DetectionResult :=
  {| weedType := raw_weedType d;
     confidence := raw_confidence d;
     bbox := match box_2d d with
             | Some b => Some b
             | None => raw_bbox d
             end;
     description := raw_description d |}.

(** The [try] block of [analyzeWeedImage]. *)
Definition analyzeWeedImage_try (out : GeminiOutcome) : completion EcoAnalysis :=
  match out with
  | CallRejected e => Throw e
  | NoText => Throw (Error "No response text from Gemini")
  | ParseThrows e => Throw e
  | ParseReturns ParsedNull =>
      Throw (Error "Cannot read properties of null (reading 'detections')")
  | ParseReturns (ParsedObject data) =>
      let result (ds : option (list DetectionResult)) :=
        {| cropContext := raw_cropContext data;
           weedDensity := raw_weedDensity data;
           remediationAdvice := raw_remediationAdvice data;
           estimatedYieldLoss := raw_estimatedYieldLoss data;
           herbicideDosage := raw_herbicideDosage data;
           detections := ds |} in
      match raw_detections data with
      | DetFalsy => Normal (result None)
      | DetNotArray => Throw (Error "data.detections.map is not a function")
      | DetArray ds => Normal (result (Some (map with_bbox ds)))
      end
  end.

(** [error.message?.includes("429") || error.status === 429 ||
     error.status === "RESOURCE_EXHAUSTED"] *)
Definition is_rate_limit (error : JsError) : bool :=
  match message error with
  | Some m => includes "429" m
  | None => false
  end
  || match status error with
     | StatusNumber n => (n =? 429)%Z
     | StatusString s => String.eqb s "RESOURCE_EXHAUSTED"
     | StatusAbsent => false
     end.

Definition rate_limit_fallback (datasetContext : DatasetContext) : EcoAnalysis :=
  {| cropContext := as_cropContext datasetContext;
     weedDensity := Low;
     remediationAdvice :=
       "System is optimizing API usage (Rate Limit Reached). Analysis will resume momentarily.";
     estimatedYieldLoss := 0%float;
     herbicideDosage := 0%float;
     detections := Some [] |}.

Definition failure_fallback (datasetContext : DatasetContext) : EcoAnalysis :=
  {| cropContext := as_cropContext datasetContext;
     weedDensity := Low;
     remediationAdvice := "Connection unstable. Retrying inference...";
     estimatedYieldLoss := 0%float;
     herbicideDosage := 0%float;
     detections := Some [] |}.

(** [analyzeWeedImage(base64Image, datasetContext)].  The frame only
    travels to the remote model; what comes back is [out]. *)
Definition analyzeWeedImage (out : GeminiOutcome) (datasetContext : DatasetContext)
  : completion EcoAnalysis :=
  try_catch (analyzeWeedImage_try out)
    (λ error,
       if is_rate_limit error
       then Normal (rate_limit_fallback datasetContext)
       else Normal (failure_fallback datasetContext)).

End geminiService.

(* ===================================================================== *)
(** ** App.tsx: data                                                      *)
(* ===================================================================== *)

(** An element of [liveDetections]: a box in viewport percentages. *)
Module LiveDetection.
Record t := {
  id : Z;
  x : float;
  y : float;
  w : float;
  h : float;
  label : string;
  conf : float
}.
End LiveDetection.

(** [MediaDeviceInfo], the fields the code reads. *)
Module MediaDeviceInfo.
Record t := {
  deviceId : string;
  kind : string;
  label : string
}.
End MediaDeviceInfo.

(** A [MediaStream] object, by identity. *)
Definition MediaStream := nat.

(** The React state of the component ([useState] cells of the live view). *)
Record AppState := {
  stream : option MediaStream;
  videoDevices : list MediaDeviceInfo.t;
  selectedDeviceId : string;
  liveDetections : list LiveDetection.t;
  isLiveInferencing : bool;
  detectedWeedTypes : gset string;
  disabledWeedTypes : gset string
}.

Definition setStream (v : option MediaStream) (s : AppState) : AppState :=
  {| stream := v; videoDevices := videoDevices s;
     selectedDeviceId := selectedDeviceId s; liveDetections := liveDetections s;
     isLiveInferencing := isLiveInferencing s;
     detectedWeedTypes := detectedWeedTypes s;
     disabledWeedTypes := disabledWeedTypes s |}.

Definition setVideoDevices (v : list MediaDeviceInfo.t) (s : AppState) : AppState :=
  {| stream := stream s; videoDevices := v;
     selectedDeviceId := selectedDeviceId s; liveDetections := liveDetections s;
     isLiveInferencing := isLiveInferencing s;
     detectedWeedTypes := detectedWeedTypes s;
     disabledWeedTypes := disabledWeedTypes s |}.

Definition setSelectedDeviceId (v : string) (s : AppState) : AppState :=
  {| stream := stream s; videoDevices := videoDevices s;
     selectedDeviceId := v; liveDetections := liveDetections s;
     isLiveInferencing := isLiveInferencing s;
     detectedWeedTypes := detectedWeedTypes s;
     disabledWeedTypes := disabledWeedTypes s |}.

Definition setLiveDetections (v : list LiveDetection.t) (s : AppState) : AppState :=
  {| stream := stream s; videoDevices := videoDevices s;
     selectedDeviceId := selectedDeviceId s; liveDetections := v;
     isLiveInferencing := isLiveInferencing s;
     detectedWeedTypes := detectedWeedTypes s;
     disabledWeedTypes := disabledWeedTypes s |}.

Definition setIsLiveInferencing (v : bool) (s : AppState) : AppState :=
  {| stream := stream s; videoDevices := videoDevices s;
     selectedDeviceId := selectedDeviceId s; liveDetections := liveDetections s;
     isLiveInferencing := v;
     detectedWeedTypes := detectedWeedTypes s;
     disabledWeedTypes := disabledWeedTypes s |}.

Definition setDisabledWeedTypes (v : gset string) (s : AppState) : AppState :=
  {| stream := stream s; videoDevices := videoDevices s;
     selectedDeviceId := selectedDeviceId s; liveDetections := liveDetections s;
     isLiveInferencing := isLiveInferencing s;
     detectedWeedTypes := detectedWeedTypes s;
     disabledWeedTypes := v |}.

(** What a functional updater handed to a React setter returned: the very
    object it was given ([Prev]: React bails out, nothing re-renders) or a
    new one. *)
Inductive Updated (A : Type) :=
| Prev
| Next (a : A).
Arguments Prev {A}.
Arguments Next {A} a.

Definition updated_value {A} (prev : A) (u : Updated A) : A :=
  match u with
  | Prev => prev
  | Next a => a
  end.

(** [setDetectedWeedTypes(updater)] and [setDetectedWeedTypes(new Set())]. *)
Definition setDetectedWeedTypes (u : Updated (gset string)) (s : AppState) : AppState :=
  {| stream := stream s; videoDevices := videoDevices s;
     selectedDeviceId := selectedDeviceId s; liveDetections := liveDetections s;
     isLiveInferencing := isLiveInferencing s;
     detectedWeedTypes := updated_value (detectedWeedTypes s) u;
     disabledWeedTypes := disabledWeedTypes s |}.

(* ===================================================================== *)
(** ** App.tsx: getDevices                                                *)
(* ===================================================================== *)

(** The predicate handed to [videoInputs.find] when nothing is selected. *)
Definition is_mobileCam (d : MediaDeviceInfo.t) : bool :=
  includes "back" (toLowerCase (MediaDeviceInfo.label d))
  || includes "virtual" (toLowerCase (MediaDeviceInfo.label d))
  || includes "phone" (toLowerCase (MediaDeviceInfo.label d)).

(** [Array.prototype.find] *)
Fixpoint find {A} (p : A → bool) (l : list A) : option A :=
  match l with
  | [] => None
  | a :: l' => if p a then Some a else find p l'
  end.

(** [videoInputs[0]?.deviceId || ''] *)
Definition first_deviceId (videoInputs : list MediaDeviceInfo.t) : string :=
  match videoInputs with
  | [] => ""
  | d :: _ => MediaDeviceInfo.deviceId d
  end.

(** The body of [getDevices] once permission and enumeration succeeded.
    An empty [selectedDeviceId] is falsy. *)
Definition getDevices_ok (devices : list MediaDeviceInfo.t) (s : AppState) : AppState :=
  let videoInputs :=
    List.filter (λ d, String.eqb (MediaDeviceInfo.kind d) "videoinput") devices in
  let s1 := setVideoDevices videoInputs s in
  let sel := selectedDeviceId s in
  let s2 :=
    if negb (String.eqb sel "")
       && negb (bool_decide (is_Some
            (find (λ d, String.eqb (MediaDeviceInfo.deviceId d) sel) videoInputs)))
    then setSelectedDeviceId (first_deviceId videoInputs) s1
    else s1 in
  if String.eqb sel "" && (0 <? length videoInputs)
  then
    match find is_mobileCam videoInputs with
    | Some mobileCam => setSelectedDeviceId (MediaDeviceInfo.deviceId mobileCam) s2
    | None => setSelectedDeviceId (first_deviceId videoInputs) s2
    end
  else s2.

(** [getDevices]: [None] when [getUserMedia] or [enumerateDevices]
    rejected (the [catch] only logs). *)
Definition getDevices (enumerated : option (list MediaDeviceInfo.t)) (s : AppState)
  : AppState :=
  match enumerated with
  | Some devices => getDevices_ok devices s
  | None => s
  end.

(* ===================================================================== *)
(** ** App.tsx: reconciliation and filter                                 *)
(* ===================================================================== *)

(** The updater given to [setDetectedWeedTypes] in the live loop. *)
Definition recordCategories_step (acc : gset string * bool) (d : DetectionResult)
  : gset string * bool :=
  let '(newSet, changed) := acc in
  if decide (weedType d ∈ newSet) then (newSet, changed)
  else ({[weedType d]} ∪ newSet, true).

Definition recordCategories (ds : list DetectionResult) (prev : gset string)
  : Updated (gset string) :=
  let '(newSet, changed) := fold_left recordCategories_step ds (prev, false) in
  if changed then Next newSet else Prev.

(** The callback of [result.detections.map((d, i) => ...)]; [now] is
    what [Date.now()] returns while the array is mapped. *)
Definition mapDetection (now : Z) (i : nat) (d : DetectionResult)
  : option LiveDetection.t :=
  match bbox d with
  | None => None
  | Some b =>
      if length b <? 4 then None
      else
        let ymin := nth 0 b nan in
        let xmin := nth 1 b nan in
        let ymax := nth 2 b nan in
        let xmax := nth 3 b nan in
        Some {| LiveDetection.id := now + Z.of_nat i;
                LiveDetection.x := (xmin * 100)%float;
                LiveDetection.y := (ymin * 100)%float;
                LiveDetection.w := ((xmax - xmin) * 100)%float;
                LiveDetection.h := ((ymax - ymin) * 100)%float;
                LiveDetection.label := weedType d;
                LiveDetection.conf := confidence d |}
  end.

(** [result.detections.map(...).filter(Boolean)].  The callback reads
    [Date.now()] itself, once for each element: [now i] is what the clock
    shows when the callback runs for index [i]. *)
Definition mappedDetections (now : nat → Z) (ds : list DetectionResult)
  : list LiveDetection.t :=
  omap (λ o : option LiveDetection.t, o)
    (imap (λ i d, mapDetection (now i) i d) ds).

(** [liveDetections.filter(box => !disabledWeedTypes.has(box.label))] *)
Definition visibleRegions (disabled : gset string) (boxes : list LiveDetection.t)
  : list LiveDetection.t :=
  List.filter (λ box, negb (bool_decide (LiveDetection.label box ∈ disabled))) boxes.

(** The [onClick] of a filter-menu entry. *)
Definition toggleWeedType (type : string) (s : AppState) : AppState :=
  let next := disabledWeedTypes s in
  setDisabledWeedTypes
    (if decide (type ∈ next) then next ∖ {[type]} else {[type]} ∪ next) s.

(* ===================================================================== *)
(** ** App.tsx: the sampling effect                                       *)
(* ===================================================================== *)

(** One run of [useEffect(() => { ... }, [stream])].  [captureFrameAndAnalyze]
    is created inside it, so it reads the [stream] and the [isLiveInferencing]
    of the render that ran the effect; the effect is run again only when
    [stream] changes.  [isMounted] and [interval] are its two [let] cells:
    [interval] tells whether its timer is registered and not yet cleared. *)
Record Effect := {
  eff_stream : option MediaStream;
  eff_isLiveInferencing : bool;
  isMounted : bool;
  interval : bool
}.

(** The effect body: [isMounted = true], and [setInterval] if [stream]. *)
Definition run_effect (s : AppState) : Effect :=
  {| eff_stream := stream s;
     eff_isLiveInferencing := isLiveInferencing s;
     isMounted := true;
     interval := bool_decide (is_Some (stream s)) |}.

(** The function the effect returns: [isMounted = false; clearInterval(interval)]. *)
Definition cleanup (eff : Effect) : Effect :=
  {| eff_stream := eff_stream eff;
     eff_isLiveInferencing := eff_isLiveInferencing eff;
     isMounted := false;
     interval := false |}.

(** The component and what surrounds it: its state, every effect closure
    created so far (the last one is the current one), the calls of
    [analyzeWeedImage] not yet settled (call number to the index of the
    effect whose closure awaits it), the number of calls made, the
    streams whose tracks were stopped, and the [getUserMedia] requests not
    yet settled (request number to the handler that awaits it) with the
    number of requests made. *)
Inductive MediaRequest :=
| ByToggleCamera
| ByHandleDeviceChange.

Record World := {
  app : AppState;
  effects : list Effect;
  pending : gmap nat nat;
  dispatched : nat;
  stoppedStreams : list MediaStream;
  requests : gmap nat MediaRequest;
  requested : nat
}.

Definition with_app (f : AppState → AppState) (w : World) : World :=
  {| app := f (app w); effects := effects w; pending := pending w;
     dispatched := dispatched w; stoppedStreams := stoppedStreams w;
     requests := requests w; requested := requested w |}.

Definition with_effects (effs : list Effect) (w : World) : World :=
  {| app := app w; effects := effs; pending := pending w;
     dispatched := dispatched w; stoppedStreams := stoppedStreams w;
     requests := requests w; requested := requested w |}.

Definition with_pending (p : gmap nat nat) (w : World) : World :=
  {| app := app w; effects := effects w; pending := p;
     dispatched := dispatched w; stoppedStreams := stoppedStreams w;
     requests := requests w; requested := requested w |}.

Definition with_requests (r : gmap nat MediaRequest) (w : World) : World :=
  {| app := app w; effects := effects w; pending := pending w;
     dispatched := dispatched w; stoppedStreams := stoppedStreams w;
     requests := r; requested := requested w |}.

Definition stop_tracks (s : MediaStream) (w : World) : World :=
  {| app := app w; effects := effects w; pending := pending w;
     dispatched := dispatched w; stoppedStreams := s :: stoppedStreams w;
     requests := requests w; requested := requested w |}.

(** A call of [analyzeWeedImage] leaves: it is numbered and awaited by
    effect [e]. *)
Definition dispatch (e : nat) (w : World) : World :=
  {| app := app w; effects := effects w;
     pending := <[dispatched w := e]> (pending w);
     dispatched := S (dispatched w); stoppedStreams := stoppedStreams w;
     requests := requests w; requested := requested w |}.

(** A call of [navigator.mediaDevices.getUserMedia] leaves: it is numbered
    and awaited by handler [k]. *)
Definition request_media (k : MediaRequest) (w : World) : World :=
  {| app := app w; effects := effects w; pending := pending w;
     dispatched := dispatched w; stoppedStreams := stoppedStreams w;
     requests := <[requested w := k]> (requests w);
     requested := S (requested w) |}.

(** The commit after an event handler changed the state: when [stream]
    differs from the one of the previous render, the current effect is
    cleaned up and the effect runs again. *)
Definition commit (prev_stream : option MediaStream) (w : World) : World :=
  if decide (stream (app w) = prev_stream) then w
  else with_effects
         (alter cleanup (pred (length (effects w))) (effects w)
          ++ [run_effect (app w)]) w.

(** [toggleCamera] up to its [await]: with a stream, the whole stop
    branch (it awaits nothing); without one, the request for a stream. *)
Definition toggleCamera_begin (w : World) : World :=
  match stream (app w) with
  | Some s =>
      commit (Some s)
        (with_app (λ a, setDetectedWeedTypes (Next ∅)
                          (setLiveDetections [] (setStream None a)))
           (stop_tracks s w))
  | None => request_media ByToggleCamera w
  end.

(** [handleDeviceChange(newDeviceId)] up to its [await]: the selection is
    set; with a stream, its tracks are stopped and a new stream is
    requested. *)
Definition handleDeviceChange_begin (newDeviceId : string) (w : World) : World :=
  let w1 := with_app (setSelectedDeviceId newDeviceId) w in
  match stream (app w) with
  | Some s => request_media ByHandleDeviceChange (stop_tracks s w1)
  | None => w1
  end.

(** Request [r] of [getUserMedia] settles with [media] ([None]: it
    rejects), and the handler that awaits it runs on: [toggleCamera] sets
    the new stream, or alerts; [handleDeviceChange] sets the new stream,
    or sets none.  Neither looks at what happened since the request. *)
Definition media_settled (r : nat) (media : option MediaStream) (w : World)
  : World :=
  match requests w !! r with
  | Some k =>
      let w0 := with_requests (delete r (requests w)) w in
      match k, media with
      | ByToggleCamera, Some newStream =>
          commit (stream (app w)) (with_app (setStream (Some newStream)) w0)
      | ByToggleCamera, None => w0
      | ByHandleDeviceChange, _ =>
          commit (stream (app w)) (with_app (setStream media) w0)
      end
  | None => w
  end.

(** A whole [toggleCamera] whose request, if it makes one, settles with
    [media] before anything else happens. *)
Definition toggleCamera (media : option MediaStream) (w : World) : World :=
  match stream (app w) with
  | Some _ => toggleCamera_begin w
  | None => media_settled (requested w) media (toggleCamera_begin w)
  end.

(** A whole [handleDeviceChange] whose request, if it makes one, settles
    with [media] before anything else happens. *)
Definition handleDeviceChange (newDeviceId : string) (media : option MediaStream)
    (w : World) : World :=
  match stream (app w) with
  | Some _ =>
      media_settled (requested w) media (handleDeviceChange_begin newDeviceId w)
  | None => handleDeviceChange_begin newDeviceId w
  end.

(** What a timer tick finds outside the component: [videoRef.current]
    (with its [readyState]), whether [canvas.getContext('2d')] gives a
    context, and whether drawing and encoding the frame throws. *)
Record TickEnv := {
  videoRef_current : option Z;
  getContext_2d : bool;
  capture_throws : option JsError
}.

(** The [finally] block, for the effect as it is now. *)
Definition finally_clear (e : nat) (w : World) : World :=
  match effects w !! e with
  | Some eff => if isMounted eff then with_app (setIsLiveInferencing false) w else w
  | None => w
  end.

(** [captureFrameAndAnalyze] of effect [e], up to its [await].  In the
    guard, [videoRef.current] is read from the ref when the tick runs;
    [stream] and [isLiveInferencing] are the variables of the render that
    ran the effect.  The setters act on the state. *)
Definition captureFrameAndAnalyze (e : nat) (eff : Effect) (env : TickEnv)
    (w : World) : World :=
  match videoRef_current env, eff_stream eff, eff_isLiveInferencing eff with
  | Some readyState, Some _, false =>
      let w1 := with_app (setIsLiveInferencing true) w in
      if negb (readyState =? 4)%Z
      then finally_clear e (with_app (setIsLiveInferencing false) w1)
      else if getContext_2d env
      then match capture_throws env with
           | Some _ => finally_clear e w1
           | None => dispatch e w1
           end
      else finally_clear e w1
  | _, _, _ => w
  end.

(** The timer of effect [e] fires: nothing runs once it was cleared. *)
Definition tick (e : nat) (env : TickEnv) (w : World) : World :=
  match effects w !! e with
  | Some eff => if interval eff then captureFrameAndAnalyze e eff env w else w
  | None => w
  end.

(** [captureFrameAndAnalyze] of effect [e] after its [await]: the rest of
    the [try] block, the [catch], the [finally].  The second component is
    how the [async] function itself completes. *)
Definition captureFrameAndAnalyze_resume (e : nat) (now : nat → Z)
    (awaited : completion EcoAnalysis) (w : World) : World * completion unit :=
  let mounted := default false (isMounted <$> effects w !! e) in
  let tried : World * completion unit :=
    match awaited with
    | Throw err => (w, Throw err)
    | Normal result =>
        match mounted, detections result with
        | true, Some ds =>
            (with_app (λ a, setLiveDetections (mappedDetections now ds)
                              (setDetectedWeedTypes
                                 (recordCategories ds (detectedWeedTypes a)) a)) w,
             Normal tt)
        | _, _ => (w, Normal tt)
        end
    end in
  let caught : World * completion unit :=
    match tried.2 with
    | Throw _ => (tried.1, Normal tt)
    | Normal _ => tried
    end in
  (finally_clear e caught.1, caught.2).

(** Call [c] settles with [out]; [clock] is what [Date.now()] shows
    while the detections are mapped. *)
Definition resolve_timed (c : nat) (out : geminiService.GeminiOutcome)
    (clock : nat → Z) (w : World) : World * completion unit :=
  match pending w !! c with
  | Some e =>
      captureFrameAndAnalyze_resume e clock
        (geminiService.analyzeWeedImage out geminiService.DatasetBeet)
        (with_pending (delete c (pending w)) w)
  | None => (w, Normal tt)
  end.

(** Call [c] settles with [out] at time [now], the clock standing still
    while the detections are mapped. *)
Definition resolve (c : nat) (out : geminiService.GeminiOutcome) (now : Z)
    (w : World) : World * completion unit :=
  resolve_timed c out (λ _, now) w.

(** What can happen to the live view.  [ToggleCamera], [HandleDeviceChange]
    and [Resolve] are the runs of a handler during which nothing else
    happens and the clock stands still; [CameraRequested],
    [DeviceChangeRequested], [MediaSettled] and [ResolveTimed] are the
    parts they are made of, which other events may come between. *)
Inductive Event :=
| ToggleCamera (media : option MediaStream)
| HandleDeviceChange (newDeviceId : string) (media : option MediaStream)
| GetDevices (enumerated : option (list MediaDeviceInfo.t))
| Tick (e : nat) (env : TickEnv)
| Resolve (c : nat) (out : geminiService.GeminiOutcome) (now : Z)
| ToggleWeedType (type : string)
| CameraRequested
| DeviceChangeRequested (newDeviceId : string)
| MediaSettled (r : nat) (media : option MediaStream)
| ResolveTimed (c : nat) (out : geminiService.GeminiOutcome) (clock : nat → Z).

Definition step (w : World) (ev : Event) : World :=
  match ev with
  | ToggleCamera media => toggleCamera media w
  | HandleDeviceChange newDeviceId media => handleDeviceChange newDeviceId media w
  | GetDevices enumerated => with_app (getDevices enumerated) w
  | Tick e env => tick e env w
  | Resolve c out now => (resolve c out now w).1
  | ToggleWeedType type => with_app (toggleWeedType type) w
  | CameraRequested => toggleCamera_begin w
  | DeviceChangeRequested newDeviceId => handleDeviceChange_begin newDeviceId w
  | MediaSettled r media => media_settled r media w
  | ResolveTimed c out clock => (resolve_timed c out clock w).1
  end.

Definition run (w : World) (evs : list Event) : World := fold_left step evs w.

(** The component as first rendered: the effect ran once, without stream. *)
Definition initial_app : AppState :=
  {| stream := None; videoDevices := []; selectedDeviceId := "";
     liveDetections := []; isLiveInferencing := false;
     detectedWeedTypes := ∅; disabledWeedTypes := ∅ |}.

Definition initial : World :=
  {| app := initial_app; effects := [run_effect initial_app];
     pending := ∅; dispatched := 0; stoppedStreams := [];
     requests := ∅; requested := 0 |}.

Definition reachable (w : World) : Prop := ∃ evs, w = run initial evs.

(** A tick that meets a video element with enough data, a 2D context and
    no encoding failure. *)
Definition ready : TickEnv :=
  {| videoRef_current := Some 4%Z; getContext_2d := true; capture_throws := None |}.

(** The camera button is pressed. *)
Definition is_start (ev : Event) : Prop :=
  match ev with
  | ToggleCamera _ | CameraRequested => True
  | _ => False
  end.

(** A [getUserMedia] request settles with a stream. *)
Definition delivers_stream (ev : Event) : Prop :=
  match ev with
  | MediaSettled _ (Some _) => True
  | _ => False
  end.

(* ===================================================================== *)
(** ** geminiService.ts: cleaning the answer                              *)
(* ===================================================================== *)

(** [text.replace(/```json|```/g, '')]: one pass from the left; at each
    position the longer alternative is tried first.  [skip] counts the
    characters of a match still to be dropped. *)
Fixpoint strip_fences (skip : nat) (s : string) : string :=
  match s with
  | EmptyString => EmptyString
  | String c s' =>
      match skip with
      | S k => strip_fences k s'
      | O =>
          if String.prefix "```json" (String c s') then strip_fences 6 s'
          else if String.prefix "```" (String c s') then strip_fences 2 s'
          else String c (strip_fences 0 s')
      end
  end.

(** White space, among the ASCII characters: TAB, LF, VT, FF, CR, SP. *)
Definition is_white_space (c : ascii) : bool :=
  let n := nat_of_ascii c in
  ((9 <=? n) && (n <=? 13)) || (n =? 32).

Fixpoint trimStart (s : string) : string :=
  match s with
  | EmptyString => EmptyString
  | String c s' => if is_white_space c then trimStart s' else s
  end.

Fixpoint trimEnd (s : string) : string :=
  match s with
  | EmptyString => EmptyString
  | String c s' =>
      match trimEnd s' with
      | EmptyString => if is_white_space c then EmptyString else String c EmptyString
      | t => String c t
      end
  end.

(** [String.prototype.trim] *)
Definition trim (s : string) : string := trimEnd (trimStart s).

(** [response.text.replace(/```json|```/g, '').trim()] *)
Definition cleanText (text : string) : string := trim (strip_fences 0 text).

(* ===================================================================== *)
(** ** App.tsx: the upload view                                           *)
(* ===================================================================== *)

(** [s.split(sep)] for a separator of one character. *)
Fixpoint split (sep : ascii) (s : string) : list string :=
  match s with
  | EmptyString => [EmptyString]
  | String c s' =>
      if Ascii.eqb c sep then EmptyString :: split sep s'
      else match split sep s' with
           | piece :: rest => String c piece :: rest
           | [] => [String c EmptyString]
           end
  end.

(** [dataUrl.split(',')[1]]; [None] is [undefined]. *)
Definition base64Data (dataUrl : string) : option string :=
  split "," dataUrl !! 1.

(** The state of the upload view, and the alerts shown so far. *)
Record UploadState := {
  selectedDataset : geminiService.DatasetContext;
  uploadedImage : option string;
  isAnalyzing : bool;
  analysisResult : option EcoAnalysis;
  alerts : list string
}.

Definition initial_upload : UploadState :=
  {| selectedDataset := geminiService.DatasetCotton; uploadedImage := None;
     isAnalyzing := false; analysisResult := None; alerts := [] |}.

(** [handleFileUpload] with its [reader.onloadend]: [file] is [None] when
    no file was chosen, else what [reader.result] holds once the reading
    ended (a data URL, or [null] after a failure). *)
Definition handleFileUpload (file : option (option string)) (u : UploadState)
  : UploadState :=
  match file with
  | Some result =>
      {| selectedDataset := selectedDataset u; uploadedImage := result;
         isAnalyzing := isAnalyzing u; analysisResult := None;
         alerts := alerts u |}
  | None => u
  end.

(** What [runAnalysis] sends: the payload and the dataset of its render. *)
Record AnalysisRequest := {
  request_data : option string;
  request_dataset : geminiService.DatasetContext
}.

(** [runAnalysis] up to its [await]; an empty string is falsy. *)
Definition runAnalysis_start (u : UploadState)
  : UploadState * option AnalysisRequest :=
  match uploadedImage u with
  | None => (u, None)
  | Some image =>
      if String.eqb image "" then (u, None)
      else
        ({| selectedDataset := selectedDataset u; uploadedImage := uploadedImage u;
            isAnalyzing := true; analysisResult := analysisResult u;
            alerts := alerts u |},
         Some {| request_data := base64Data image;
                 request_dataset := selectedDataset u |})
  end.

(** [runAnalysis] after its [await]: [setAnalysisResult], or the [catch]
    with its alert; then the [finally]. *)
Definition runAnalysis_settle (awaited : completion EcoAnalysis) (u : UploadState)
  : UploadState :=
  let u1 :=
    match awaited with
    | Normal result =>
        {| selectedDataset := selectedDataset u; uploadedImage := uploadedImage u;
           isAnalyzing := isAnalyzing u; analysisResult := Some result;
           alerts := alerts u |}
    | Throw _ =>
        {| selectedDataset := selectedDataset u; uploadedImage := uploadedImage u;
           isAnalyzing := isAnalyzing u; analysisResult := analysisResult u;
           alerts := "Analysis failed. Please check console." :: alerts u |}
    end in
  {| selectedDataset := selectedDataset u1; uploadedImage := uploadedImage u1;
     isAnalyzing := false; analysisResult := analysisResult u1;
     alerts := alerts u1 |}.

(** A whole [runAnalysis], the remote call going as [out] says. *)
Definition runAnalysis (out : geminiService.GeminiOutcome) (u : UploadState)
  : UploadState :=
  match runAnalysis_start u with
  | (u1, Some request) =>
      runAnalysis_settle
        (geminiService.analyzeWeedImage out (request_dataset request)) u1
  | (u1, None) => u1
  end.

(** The headline of the status report:
    [analysisResult.detections.length > 0 ? `${...} Weeds Identified`
     : "Field is Clean"]; reading [length] of a missing array throws. *)
Inductive StatusLine :=
| WeedsIdentified (n : nat)
| FieldIsClean.

Definition statusLine (result : EcoAnalysis) : completion StatusLine :=
  match detections result with
  | None => Throw (Error "Cannot read properties of undefined (reading 'length')")
  | Some ds => Normal (if 0 <? length ds then WeedsIdentified (length ds)
                       else FieldIsClean)
  end.

(** A box of the upload overlay, in viewport percentages. *)
Record OverlayBox := {
  overlay_top : float;
  overlay_left : float;
  overlay_width : float;
  overlay_height : float
}.

(** The callback of [analysisResult?.detections?.map((det, idx) => ...)]:
    [null] without a box; a missing element of the box is [undefined],
    which arithmetic turns into [NaN]. *)
Definition overlayBox (det : DetectionResult) : option OverlayBox :=
  match bbox det with
  | None => None
  | Some b =>
      let ymin := nth 0 b nan in
      let xmin := nth 1 b nan in
      let ymax := nth 2 b nan in
      let xmax := nth 3 b nan in
      Some {| overlay_top := (ymin * 100)%float;
              overlay_left := (xmin * 100)%float;
              overlay_width := ((xmax - xmin) * 100)%float;
              overlay_height := ((ymax - ymin) * 100)%float |}
  end.

(* ===================================================================== *)
(** ** App.tsx: colours and icons                                         *)
(* ===================================================================== *)

(** [ToInt32] of an integer. *)
Definition ToInt32 (n : Z) : Z := ((n + 2 ^ 31) mod 2 ^ 32 - 2 ^ 31)%Z.

(** [hash << 5] *)
Definition shl5 (hash : Z) : Z := ToInt32 (Z.shiftl (ToInt32 hash) 5).

(** [label.charCodeAt(i) + ((hash << 5) - hash)] *)
Definition hash_step (hash charCode : Z) : Z := (charCode + (shl5 hash - hash))%Z.

(** The loop of [getWeedColor] over the code units of the label. *)
Definition weedHash (charCodes : list Z) : Z := fold_left hash_step charCodes 0%Z.

Record WeedColor := { border : string; bg : string; shadow : string }.

Definition colors : list WeedColor :=
  [ {| border := "border-red-500"; bg := "bg-red-600"; shadow := "shadow-red-500/40" |};
    {| border := "border-orange-500"; bg := "bg-orange-600";
       shadow := "shadow-orange-500/40" |};
    {| border := "border-amber-500"; bg := "bg-amber-600";
       shadow := "shadow-amber-500/40" |};
    {| border := "border-purple-500"; bg := "bg-purple-600";
       shadow := "shadow-purple-500/40" |};
    {| border := "border-pink-500"; bg := "bg-pink-600"; shadow := "shadow-pink-500/40" |};
    {| border := "border-blue-500"; bg := "bg-blue-600"; shadow := "shadow-blue-500/40" |} ].

(** [colors[Math.abs(hash) % colors.length]]; [None] is [undefined]. *)
Definition getWeedColor_codes (charCodes : list Z) : option WeedColor :=
  colors !! Z.to_nat (Z.abs (weedHash charCodes) mod Z.of_nat (length colors)).

Definition charCodes (label : string) : list Z :=
  (λ c, Z.of_nat (nat_of_ascii c)) <$> list_ascii_of_string label.

Definition getWeedColor (label : string) : option WeedColor :=
  getWeedColor_codes (charCodes label).

Inductive DeviceIcon := Smartphone | Laptop.

(** [getDeviceIcon(label)] *)
Definition getDeviceIcon (label : string) : DeviceIcon :=
  let l := toLowerCase label in
  if includes "back" l || includes "virtual" l || includes "phone" l
     || includes "droid" l
  then Smartphone else Laptop.

(* ===================================================================== *)
(** ** Further invariants of the component                                *)
(* ===================================================================== *)

(** No timer is registered and every awaited call belongs to an unmounted
    effect. *)
Definition quiet (w : World) : Prop :=
  stream (app w) = None
  ∧ Forall (λ eff, interval eff = false) (effects w)
  ∧ (∀ c e eff, pending w !! c = Some e → effects w !! e = Some eff →
                isMounted eff = false).

(** The in-flight flag is set, nothing that could clear it is awaited, and
    every registered timer belongs to a closure that closed over the set
    flag. *)
Definition jammed (w : World) : Prop :=
  isLiveInferencing (app w) = true
  ∧ (∀ c e eff, pending w !! c = Some e → effects w !! e = Some eff →
                isMounted eff = false)
  ∧ Forall (λ eff, interval eff = true → eff_isLiveInferencing eff = true)
      (effects w).

(** The last effect is the one of the current render: it closed over the
    current stream, is mounted, and holds a timer exactly when there is a
    stream. *)
Definition current_effect (w : World) : Prop :=
  ∃ eff, last (effects w) = Some eff
         ∧ eff_stream eff = stream (app w)
         ∧ isMounted eff = true
         ∧ interval eff = bool_decide (is_Some (stream (app w))).

(** Every awaited call belongs to an effect that closed over a stream. *)
Definition streamed_calls (w : World) : Prop :=
  ∀ c e eff, pending w !! c = Some e → effects w !! e = Some eff →
             is_Some (eff_stream eff).

(** Every displayed box carries a recorded category. *)
Definition labelled (w : World) : Prop :=
  ∀ box, box ∈ liveDetections (app w) →
         LiveDetection.label box ∈ detectedWeedTypes (app w).

(* ===================================================================== *)
(** ** Specification-side definitions                                     *)
(* ===================================================================== *)

(** A detection that carries a box of at least four numbers. *)
Definition has_box (d : DetectionResult) : bool :=
  match bbox d with
  | Some b => 4 <=? length b
  | None => false
  end.

(** The selection the specification words describe (to compare with
    [getDevices]): a "back" device first, then a "virtual" one, then a
    "phone" one, then the first listed. *)
Definition spec_preferred_deviceId (videoInputs : list MediaDeviceInfo.t) : string :=
  let labelled (kw : string) :=
    find (λ d, includes kw (toLowerCase (MediaDeviceInfo.label d))) videoInputs in
  match labelled "back", labelled "virtual", labelled "phone" with
  | Some d, _, _ => MediaDeviceInfo.deviceId d
  | None, Some d, _ => MediaDeviceInfo.deviceId d
  | None, None, Some d => MediaDeviceInfo.deviceId d
  | None, None, None => first_deviceId videoInputs
  end.

(* ===================================================================== *)
(** ** Sample data                                                        *)
(* ===================================================================== *)

Module Sample.

Definition rate_limited : JsError :=
  {| message := Some "got status: 429 Too Many Requests";
     status := StatusNumber 429 |}.

Definition offline : JsError :=
  {| message := Some "fetch failed"; status := StatusAbsent |}.

(** The detection of the specification's geometry example. *)
Definition boxed : DetectionResult :=
  {| weedType := "Fat Hen"; confidence := 0.9%float;
     bbox := Some [0.1; 0.2; 0.4; 0.6]%float;
     description := "broad leaves" |}.

Definition fatHen : LiveDetection.t :=
  {| LiveDetection.id := 1000; LiveDetection.x := 20%float;
     LiveDetection.y := 10%float; LiveDetection.w := 40%float;
     LiveDetection.h := 30%float; LiveDetection.label := "Fat Hen";
     LiveDetection.conf := 0.9%float |}.

Definition redshank : LiveDetection.t :=
  {| LiveDetection.id := 1001; LiveDetection.x := 50%float;
     LiveDetection.y := 50%float; LiveDetection.w := 10%float;
     LiveDetection.h := 10%float; LiveDetection.label := "Redshank";
     LiveDetection.conf := 0.8%float |}.

Definition virtualCam : MediaDeviceInfo.t :=
  {| MediaDeviceInfo.deviceId := "cam-v"; MediaDeviceInfo.kind := "videoinput";
     MediaDeviceInfo.label := "OBS Virtual Camera" |}.

Definition backCam : MediaDeviceInfo.t :=
  {| MediaDeviceInfo.deviceId := "cam-b"; MediaDeviceInfo.kind := "videoinput";
     MediaDeviceInfo.label := "Back Camera" |}.

Definition webCam : MediaDeviceInfo.t :=
  {| MediaDeviceInfo.deviceId := "cam-1"; MediaDeviceInfo.kind := "videoinput";
     MediaDeviceInfo.label := "Integrated Webcam" |}.

Definition raw (type : string) (box : option (list float))
  : geminiService.RawDetection :=
  {| geminiService.raw_weedType := type;
     geminiService.raw_confidence := 0.9%float;
     geminiService.raw_description := "";
     geminiService.box_2d := box;
     geminiService.raw_bbox := None |}.

(** A parsed answer with the given detections. *)
Definition answer (rs : list geminiService.RawDetection)
  : geminiService.GeminiOutcome :=
  geminiService.ParseReturns (geminiService.ParsedObject
    {| geminiService.raw_cropContext := Beet;
       geminiService.raw_weedDensity := Low;
       geminiService.raw_remediationAdvice := "";
       geminiService.raw_estimatedYieldLoss := 5%float;
       geminiService.raw_herbicideDosage := 2%float;
       geminiService.raw_detections := geminiService.DetArray rs |}).

(** One detection with a box, one with a short box, one without. *)
Definition three : list geminiService.RawDetection :=
  [ raw "Fat Hen" (Some [0.1; 0.2; 0.4; 0.6]%float);
    raw "Redshank" (Some [0.5; 0.5]%float);
    raw "Knotgrass" None ].

(** A session was started and its first tick dispatched call 0, awaited
    by effect 1. *)
Definition sampling : World := run initial [ToggleCamera (Some 7); Tick 1 ready].

(** The first call succeeded with [three]; the next tick dispatched call 1. *)
Definition showing : World :=
  run sampling [Resolve 0 (answer three) 1000; Tick 1 ready].

(** As [showing], and the user has hidden "Fat Hen". *)
Definition hiding : World := run showing [ToggleWeedType "Fat Hen"].

(** A session was started and a device switch is awaiting its stream
    (request 1; request 0 was the start's). *)
Definition switching : World :=
  run initial [ToggleCamera (Some 7); DeviceChangeRequested "cam-b"].

End Sample.

(* ===================================================================== *)
(** ** Invariants of the component                                        *)
(* ===================================================================== *)

(** An effect whose cleanup ran. *)
Definition retired (eff : Effect) : Prop :=
  isMounted eff = false ∧ interval eff = false.

(** Every effect but the current one is retired, and every awaited call
    belongs to an effect that exists. *)
Definition settled (w : World) : Prop :=
  (∀ i eff, effects w !! i = Some eff → S i < length (effects w) → retired eff)
  ∧ (∀ c e, pending w !! c = Some e → e < length (effects w)).

(** What every state the component reaches satisfies: the old effects
    are retired, the awaited calls belong to effects that closed over a
    stream, and the last effect is the one of the current render. *)
Definition coherent (w : World) : Prop :=
  settled w ∧ streamed_calls w ∧ current_effect w.

(* ===================================================================== *)
(** ** Facts about the service                                            *)
(* ===================================================================== *)

(** What the [catch] block of [analyzeWeedImage] returns. *)
Lemma analyzeWeedImage_caught out ctx err :
  geminiService.analyzeWeedImage_try out = Throw err →
  geminiService.analyzeWeedImage out ctx =
    Normal (if geminiService.is_rate_limit err
            then geminiService.rate_limit_fallback ctx
            else geminiService.failure_fallback ctx).
Proof.
  intros H. unfold geminiService.analyzeWeedImage. rewrite H. cbn [try_catch].
  by destruct (geminiService.is_rate_limit err).
Qed.

(** [analyzeWeedImage] never rejects. *)
Lemma analyzeWeedImage_total out ctx :
  ∃ result, geminiService.analyzeWeedImage out ctx = Normal result.
Proof.
  unfold geminiService.analyzeWeedImage.
  destruct (geminiService.analyzeWeedImage_try out) as [r | err]; cbn [try_catch].
  - by eexists.
  - destruct (geminiService.is_rate_limit err); by eexists.
Qed.

(** C9. Whenever the [try] block of [analyzeWeedImage] throws (a rejected
    call, among them the 429 and RESOURCE_EXHAUSTED signals, an answer
    without text, text that does not parse, a parsed value of the wrong
    shape), [analyzeWeedImage] completes normally and its result has no
    detections, zero yield loss and zero dosage. *)
Theorem analyzeWeedImage_fallback
    (out : geminiService.GeminiOutcome) (ctx : geminiService.DatasetContext)
    (error : JsError) :
  geminiService.analyzeWeedImage_try out = Throw error →
  ∃ result,
    geminiService.analyzeWeedImage out ctx = Normal result
    ∧ detections result = Some []
    ∧ estimatedYieldLoss result = 0%float
    ∧ herbicideDosage result = 0%float.
Proof.
  intros Hthrow. rewrite (analyzeWeedImage_caught out ctx error Hthrow).
  eexists. split; [reflexivity |].
  by destruct (geminiService.is_rate_limit error).
Qed.

Lemma analyzeWeedImage_fallback_witness :
  ∃ result,
    geminiService.analyzeWeedImage
      (geminiService.CallRejected Sample.rate_limited) geminiService.DatasetBeet
    = Normal result
    ∧ detections result = Some []
    ∧ estimatedYieldLoss result = 0%float
    ∧ herbicideDosage result = 0%float.
Proof.
  apply (analyzeWeedImage_fallback
           (geminiService.CallRejected Sample.rate_limited)
           geminiService.DatasetBeet Sample.rate_limited).
  reflexivity.
Defined.

(* ===================================================================== *)
(** ** Facts about the geometry mapping                                   *)
(* ===================================================================== *)

(** C4, as the code has it. A detection whose box starts with
    [ymin, xmin, ymax, xmax] maps to the box with [x = xmin * 100],
    [y = ymin * 100], [w = (xmax - xmin) * 100], [h = (ymax - ymin) * 100],
    the operations being those of binary64 numbers; for the box
    [0.1, 0.2, 0.4, 0.6] these are 20, 10, 40 and 30.000000000000004. *)
Theorem mapDetection_geometry
    (now : Z) (i : nat) (d : DetectionResult) (ymin xmin ymax xmax : float)
    (rest : list float) :
  bbox d = Some (ymin :: xmin :: ymax :: xmax :: rest) →
  mapDetection now i d =
    Some {| LiveDetection.id := now + Z.of_nat i;
            LiveDetection.x := (xmin * 100)%float;
            LiveDetection.y := (ymin * 100)%float;
            LiveDetection.w := ((xmax - xmin) * 100)%float;
            LiveDetection.h := ((ymax - ymin) * 100)%float;
            LiveDetection.label := weedType d;
            LiveDetection.conf := confidence d |}
  ∧ ([ymin; xmin; ymax; xmax] = [0.1; 0.2; 0.4; 0.6]%float →
     ((xmin * 100)%float = 20%float
      ∧ (ymin * 100)%float = 10%float
      ∧ ((xmax - xmin) * 100)%float = 40%float
      ∧ ((ymax - ymin) * 100)%float = 30.000000000000004%float)).
Proof.
  intros Hb. split.
  - unfold mapDetection. rewrite Hb. reflexivity.
  - intros [= -> -> -> ->]. repeat split.
Qed.

Lemma mapDetection_geometry_witness :
  mapDetection 1000 0 Sample.boxed =
    Some {| LiveDetection.id := 1000;
            LiveDetection.x := 20%float;
            LiveDetection.y := 10%float;
            LiveDetection.w := 40%float;
            LiveDetection.h := 30.000000000000004%float;
            LiveDetection.label := "Fat Hen";
            LiveDetection.conf := 0.9%float |}.
Proof.
  exact (proj1 (mapDetection_geometry 1000 0 Sample.boxed
                  0.1%float 0.2%float 0.4%float 0.6%float [] eq_refl)).
Defined.

(** C4 as stated fails at its own example: left, top and width are 20, 10
    and 40, the height is not 30. *)
Lemma mapDetection_height_not_30 :
  ∃ r, mapDetection 1000 0 Sample.boxed = Some r
       ∧ LiveDetection.x r = 20%float
       ∧ LiveDetection.y r = 10%float
       ∧ LiveDetection.w r = 40%float
       ∧ LiveDetection.h r ≠ 30%float.
Proof.
  exists {| LiveDetection.id := 1000;
            LiveDetection.x := 20%float;
            LiveDetection.y := 10%float;
            LiveDetection.w := 40%float;
            LiveDetection.h := 30.000000000000004%float;
            LiveDetection.label := "Fat Hen";
            LiveDetection.conf := 0.9%float |}.
  split; [reflexivity |].
  cbn [LiveDetection.x LiveDetection.y LiveDetection.w LiveDetection.h].
  repeat split.
  intros H.
  assert (PrimFloat.eqb 30.000000000000004 30 = true)%float as E
    by (rewrite H; reflexivity).
  vm_compute in E. discriminate E.
Qed.

(* ===================================================================== *)
(** ** Facts about category recording                                     *)
(* ===================================================================== *)

Section recordCategories.
Implicit Types (K : gset string) (ds : list DetectionResult).

Lemma recordCategories_fold_known ds K b :
  (∀ d, d ∈ ds → weedType d ∈ K) →
  fold_left recordCategories_step ds (K, b) = (K, b).
Proof.
  induction ds as [| d ds IH]; intros Hall; [done |].
  cbn [fold_left recordCategories_step].
  destruct (decide (weedType d ∈ K)) as [_ | Hn].
  - apply IH. intros d' Hd'. apply Hall. by right.
  - destruct Hn. apply Hall. by left.
Qed.

Lemma recordCategories_fold_set ds K b :
  (fold_left recordCategories_step ds (K, b)).1
  = K ∪ list_to_set (weedType <$> ds).
Proof.
  revert K b. induction ds as [| d ds IH]; intros K b.
  - cbn. set_solver.
  - cbn [fold_left recordCategories_step].
    destruct (decide (weedType d ∈ K)); rewrite IH; set_solver.
Qed.

Lemma recordCategories_fold_changed ds K :
  (fold_left recordCategories_step ds (K, true)).2 = true.
Proof.
  revert K. induction ds as [| d ds IH]; intros K; [done |].
  cbn [fold_left recordCategories_step].
  destruct (decide (weedType d ∈ K)); apply IH.
Qed.

Lemma recordCategories_fold_unchanged ds K :
  (fold_left recordCategories_step ds (K, false)).2 = false →
  (fold_left recordCategories_step ds (K, false)).1 = K.
Proof.
  revert K. induction ds as [| d ds IH]; intros K; [done |].
  cbn [fold_left recordCategories_step].
  destruct (decide (weedType d ∈ K)); [apply IH |].
  rewrite recordCategories_fold_changed. discriminate.
Qed.

(** The set after the update is the union with the batch's categories. *)
Lemma recordCategories_value ds K :
  updated_value K (recordCategories ds K) = K ∪ list_to_set (weedType <$> ds).
Proof.
  unfold recordCategories.
  pose proof (recordCategories_fold_set ds K false) as Hset.
  pose proof (recordCategories_fold_unchanged ds K) as Hsame.
  destruct (fold_left recordCategories_step ds (K, false)) as [newSet changed].
  cbn [fst snd] in *. destruct changed; cbn [updated_value]; [done |].
  rewrite <- Hset. symmetry. by apply Hsame.
Qed.

Lemma recordCategories_known ds K :
  (∀ d, d ∈ ds → weedType d ∈ K) → recordCategories ds K = Prev.
Proof.
  intros Hall. unfold recordCategories.
  by rewrite recordCategories_fold_known.
Qed.

End recordCategories.

(** C6. When every category of the batch is already in the set, the
    updater returns the set it was given ([Prev]), so the state keeps its
    value and React is not told of any change; and whatever the set was
    before a batch was recorded, recording the same batch again returns
    [Prev]. *)
Theorem recordCategories_noop (K : gset string) (ds : list DetectionResult) :
  (∀ d, d ∈ ds → weedType d ∈ K) →
  recordCategories ds K = Prev
  ∧ updated_value K (recordCategories ds K) = K
  ∧ ∀ K0 : gset string,
      recordCategories ds (updated_value K0 (recordCategories ds K0)) = Prev.
Proof.
  intros Hall. rewrite (recordCategories_known ds K Hall).
  split; [done |]. split; [done |].
  intros K0. apply recordCategories_known. intros d Hd.
  rewrite recordCategories_value. apply elem_of_union_r.
  apply elem_of_list_to_set, list_elem_of_fmap. eauto.
Qed.

Lemma recordCategories_noop_witness :
  recordCategories [Sample.boxed] {["Fat Hen"; "Redshank"]} = Prev
  ∧ updated_value {["Fat Hen"; "Redshank"]}
      (recordCategories [Sample.boxed] {["Fat Hen"; "Redshank"]})
    = {["Fat Hen"; "Redshank"]}
  ∧ ∀ K0 : gset string,
      recordCategories [Sample.boxed]
        (updated_value K0 (recordCategories [Sample.boxed] K0)) = Prev.
Proof.
  apply (recordCategories_noop {["Fat Hen"; "Redshank"]} [Sample.boxed]).
  intros d Hd. apply list_elem_of_singleton in Hd. subst d.
  apply (bool_decide_unpack _). vm_compute. exact I.
Defined.

(* ===================================================================== *)
(** ** Facts about the visibility filter                                  *)
(* ===================================================================== *)

Section visibleRegions.
Implicit Types (H : gset string) (L : list LiveDetection.t).

Lemma visibleRegions_cons H box L :
  visibleRegions H (box :: L) =
    if decide (LiveDetection.label box ∈ H) then visibleRegions H L
    else box :: visibleRegions H L.
Proof.
  unfold visibleRegions. cbn [List.filter].
  destruct (decide (LiveDetection.label box ∈ H)) as [Hin | Hnin].
  - by rewrite (bool_decide_eq_true_2 _ Hin).
  - by rewrite (bool_decide_eq_false_2 _ Hnin).
Qed.

Lemma visibleRegions_sublist H L : visibleRegions H L `sublist_of` L.
Proof.
  induction L as [| box L IH]; [constructor |].
  rewrite visibleRegions_cons. case_decide; by constructor.
Qed.

Lemma visibleRegions_elem_of H L r :
  r ∈ visibleRegions H L ↔ r ∈ L ∧ LiveDetection.label r ∉ H.
Proof.
  induction L as [| box L IH].
  - cbn. split; [intros Hr | intros [Hr _]]; by apply elem_of_nil in Hr.
  - rewrite visibleRegions_cons. case_decide as Hbox.
    + rewrite IH, elem_of_cons. split; [tauto |].
      intros [[-> | Hr] Hn]; [by destruct Hn | done].
    + rewrite !elem_of_cons, IH. split; [| tauto].
      intros [-> | [Hr Hn]]; tauto.
Qed.

Lemma visibleRegions_greatest H L L' :
  L' `sublist_of` L →
  Forall (λ r, LiveDetection.label r ∉ H) L' →
  L' `sublist_of` visibleRegions H L.
Proof.
  induction 1 as [| box l1 l2 Hsub IH | box l1 l2 Hsub IH]; intros Hall.
  - constructor.
  - apply Forall_cons in Hall as [Hbox Hall].
    rewrite visibleRegions_cons, decide_False by done.
    constructor. by apply IH.
  - rewrite visibleRegions_cons. case_decide; [by apply IH |].
    constructor. by apply IH.
Qed.

End visibleRegions.

(** C7. [visibleRegions H L] is the sublist of [L], in the order of [L],
    of the boxes whose label is not in [H]: it is a sublist of [L], it
    holds exactly those boxes, and every sublist of [L] that avoids [H] is
    a sublist of it.  With "Redshank" hidden, of a "Fat Hen" box followed
    by a "Redshank" box only the first is returned. *)
Theorem visibleRegions_correct (H : gset string) (L : list LiveDetection.t) :
  visibleRegions H L `sublist_of` L
  ∧ (∀ r, r ∈ visibleRegions H L ↔ r ∈ L ∧ LiveDetection.label r ∉ H)
  ∧ (∀ L', L' `sublist_of` L →
           Forall (λ r, LiveDetection.label r ∉ H) L' →
           L' `sublist_of` visibleRegions H L)
  ∧ (∀ a b, LiveDetection.label a = "Fat Hen" →
            LiveDetection.label b = "Redshank" →
            visibleRegions {["Redshank"]} [a; b] = [a]).
Proof.
  split; [apply visibleRegions_sublist |].
  split; [intros r; apply visibleRegions_elem_of |].
  split; [intros L'; apply visibleRegions_greatest |].
  intros a b Ha Hb. rewrite !visibleRegions_cons, Ha, Hb.
  rewrite decide_False, decide_True; [done | set_solver | set_solver].
Qed.

Lemma visibleRegions_correct_witness :
  visibleRegions {["Redshank"]} [Sample.fatHen; Sample.redshank] = [Sample.fatHen].
Proof.
  apply (visibleRegions_correct {["Redshank"]} [Sample.fatHen; Sample.redshank]);
    reflexivity.
Defined.

(* ===================================================================== *)
(** ** Facts about device selection                                       *)
(* ===================================================================== *)

Section getDevices.
Implicit Types (l : list MediaDeviceInfo.t) (d : MediaDeviceInfo.t).

Lemma find_first {A} (p : A → bool) (l1 : list A) (a : A) (l2 : list A) :
  Forall (λ a', p a' = false) l1 → p a = true →
  find p (l1 ++ a :: l2)%list = Some a.
Proof.
  induction 1 as [| a' l1 Ha' _ IH]; intros Ha; simpl.
  - by rewrite Ha.
  - rewrite Ha'. by apply IH.
Qed.

Lemma find_none {A} (p : A → bool) (l : list A) :
  Forall (λ a', p a' = false) l → find p l = None.
Proof.
  induction 1 as [| a' l Ha' _ IH]; cbn [find]; [done |]. by rewrite Ha'.
Qed.

(** With nothing selected and some video input, the selection becomes the
    first "mobile" camera if there is one, else the first input. *)
Lemma getDevices_unselected devices s :
  selectedDeviceId s = "" →
  let videoInputs :=
    List.filter (λ d, String.eqb (MediaDeviceInfo.kind d) "videoinput") devices in
  videoInputs ≠ [] →
  selectedDeviceId (getDevices (Some devices) s) =
    match find is_mobileCam videoInputs with
    | Some mobileCam => MediaDeviceInfo.deviceId mobileCam
    | None => first_deviceId videoInputs
    end.
Proof.
  intros Hsel videoInputs Hne. unfold getDevices, getDevices_ok.
  fold videoInputs. rewrite Hsel. cbn [String.eqb negb andb].
  destruct videoInputs as [| d0 rest] eqn:E; [done |].
  cbn [length Nat.ltb Nat.leb].
  by destruct (find is_mobileCam (d0 :: rest)).
Qed.

End getDevices.

(** C8, as the code has it. With no device selected and a non-empty list
    of video inputs, [getDevices] selects the first listed device whose
    label contains, in any letter case, "back", "virtual" or "phone" (the
    three words rank alike); when no label does, it selects the first
    listed device. *)
Theorem getDevices_selection
    (s : AppState) (devices : list MediaDeviceInfo.t) :
  selectedDeviceId s = "" →
  let videoInputs :=
    List.filter (λ d, String.eqb (MediaDeviceInfo.kind d) "videoinput") devices in
  videoInputs ≠ [] →
  (∀ l1 d l2,
      videoInputs = (l1 ++ d :: l2)%list →
      Forall (λ d', is_mobileCam d' = false) l1 →
      is_mobileCam d = true →
      selectedDeviceId (getDevices (Some devices) s) = MediaDeviceInfo.deviceId d)
  ∧ (Forall (λ d', is_mobileCam d' = false) videoInputs →
     Some (selectedDeviceId (getDevices (Some devices) s))
     = MediaDeviceInfo.deviceId <$> head videoInputs).
Proof.
  intros Hsel videoInputs Hne.
  pose proof (getDevices_unselected devices s Hsel Hne) as Hget.
  fold videoInputs in Hget. split.
  - intros l1 d l2 Hsplit Hl1 Hd. rewrite Hget, Hsplit.
    by rewrite (find_first is_mobileCam l1 d l2 Hl1 Hd).
  - intros Hnone. rewrite Hget, (find_none is_mobileCam videoInputs Hnone).
    by destruct videoInputs.
Qed.

Lemma getDevices_selection_witness :
  selectedDeviceId
    (getDevices (Some [Sample.webCam; Sample.virtualCam; Sample.backCam])
       initial_app)
  = "cam-v".
Proof.
  apply (proj1 (getDevices_selection initial_app
                  [Sample.webCam; Sample.virtualCam; Sample.backCam]
                  eq_refl ltac:(discriminate))
           [Sample.webCam] Sample.virtualCam [Sample.backCam]).
  - reflexivity.
  - repeat constructor.
  - reflexivity.
Defined.

(** C8 as stated fails: a "virtual" device listed before a "back" device
    is the one selected, and the selection differs from the preference
    order of the specification. *)
Lemma getDevices_prefers_first_match :
  selectedDeviceId
    (getDevices (Some [Sample.virtualCam; Sample.backCam]) initial_app)
  = "cam-v"
  ∧ includes "back" (toLowerCase (MediaDeviceInfo.label Sample.backCam)) = true
  ∧ spec_preferred_deviceId [Sample.virtualCam; Sample.backCam] = "cam-b"
  ∧ selectedDeviceId
      (getDevices (Some [Sample.virtualCam; Sample.backCam]) initial_app)
    ≠ spec_preferred_deviceId [Sample.virtualCam; Sample.backCam].
Proof.
  repeat split; try reflexivity. vm_compute. discriminate.
Qed.

(* ===================================================================== *)
(** ** Facts about the steps of the component                             *)
(* ===================================================================== *)

Section steps.
Implicit Types (w : World) (a : AppState) (eff : Effect).

Lemma app_commit prev w : app (commit prev w) = app w.
Proof. unfold commit. by case_decide. Qed.

Lemma pending_commit prev w : pending (commit prev w) = pending w.
Proof. unfold commit. by case_decide. Qed.

Lemma dispatched_commit prev w : dispatched (commit prev w) = dispatched w.
Proof. unfold commit. by case_decide. Qed.

Lemma stoppedStreams_commit prev w :
  stoppedStreams (commit prev w) = stoppedStreams w.
Proof. unfold commit. by case_decide. Qed.

(** The [finally] block touches [isLiveInferencing] only. *)
Lemma finally_clear_frame e w :
  liveDetections (app (finally_clear e w)) = liveDetections (app w)
  ∧ detectedWeedTypes (app (finally_clear e w)) = detectedWeedTypes (app w)
  ∧ disabledWeedTypes (app (finally_clear e w)) = disabledWeedTypes (app w)
  ∧ stream (app (finally_clear e w)) = stream (app w)
  ∧ effects (finally_clear e w) = effects w
  ∧ pending (finally_clear e w) = pending w
  ∧ dispatched (finally_clear e w) = dispatched w.
Proof.
  unfold finally_clear. destruct (effects w !! e) as [eff |]; [| done].
  by destruct (isMounted eff).
Qed.

(** A box is produced exactly for the detections that carry one. *)
Lemma mapDetection_has_box now i d :
  match mapDetection now i d with
  | Some r => LiveDetection.label r = weedType d ∧ has_box d = true
  | None => has_box d = false
  end.
Proof.
  unfold mapDetection, has_box. destruct (bbox d) as [b |]; [| done].
  destruct (Nat.ltb_spec (length b) 4) as [Hlt | Hge].
  - apply Nat.leb_gt. lia.
  - split; [done |]. by apply Nat.leb_le.
Qed.

Lemma omap_imap_labels (f : nat → DetectionResult → option LiveDetection.t) ds :
  (∀ i d, match f i d with
          | Some r => LiveDetection.label r = weedType d ∧ has_box d = true
          | None => has_box d = false
          end) →
  LiveDetection.label <$> omap (λ o : option LiveDetection.t, o) (imap f ds)
  = weedType <$> List.filter has_box ds.
Proof.
  revert f. induction ds as [| d ds IH]; intros f Hf; [done |].
  rewrite imap_cons. cbn [omap list_omap List.filter].
  specialize (IH (f ∘ S) (λ i d', Hf (S i) d')).
  pose proof (Hf 0 d) as H0. destruct (f 0 d) as [r |].
  - destruct H0 as [Hl Hb]. rewrite Hb. cbn [fmap list_fmap]. rewrite Hl.
    f_equal. exact IH.
  - rewrite H0. exact IH.
Qed.

Lemma mappedDetections_labels now ds :
  LiveDetection.label <$> mappedDetections now ds
  = weedType <$> List.filter has_box ds.
Proof.
  unfold mappedDetections. apply omap_imap_labels.
  intros i d. apply mapDetection_has_box.
Qed.

(** The state after a call settles; [mounted] is what the closure reads
    in its [isMounted] cell at that moment. *)
Lemma resolve_timed_pending c out (now : nat → Z) w e :
  pending w !! c = Some e →
  let mounted := default false (isMounted <$> effects w !! e) in
  ∃ result,
    geminiService.analyzeWeedImage out geminiService.DatasetBeet = Normal result
    ∧ (resolve_timed c out now w).2 = Normal tt
    ∧ liveDetections (app (resolve_timed c out now w).1)
      = (if mounted
         then match detections result with
              | Some ds => mappedDetections now ds
              | None => liveDetections (app w)
              end
         else liveDetections (app w))
    ∧ detectedWeedTypes (app (resolve_timed c out now w).1)
      = (if mounted
         then match detections result with
              | Some ds => detectedWeedTypes (app w)
                           ∪ list_to_set (weedType <$> ds)
              | None => detectedWeedTypes (app w)
              end
         else detectedWeedTypes (app w))
    ∧ disabledWeedTypes (app (resolve_timed c out now w).1) = disabledWeedTypes (app w)
    ∧ stream (app (resolve_timed c out now w).1) = stream (app w)
    ∧ effects (resolve_timed c out now w).1 = effects w
    ∧ pending (resolve_timed c out now w).1 = delete c (pending w)
    ∧ dispatched (resolve_timed c out now w).1 = dispatched w.
Proof.
  intros Hc mounted.
  destruct (analyzeWeedImage_total out geminiService.DatasetBeet) as [result Hres].
  exists result. split; [done |].
  unfold resolve_timed. rewrite Hc. unfold captureFrameAndAnalyze_resume.
  rewrite Hres. cbn [effects with_pending]. fold mounted.
  destruct mounted, (detections result) as [ds |]; cbn [fst snd];
    match goal with
    | |- context [finally_clear ?e ?w] =>
        destruct (finally_clear_frame e w) as (-> & -> & -> & -> & -> & -> & ->)
    end;
    cbn; rewrite ?recordCategories_value; done.
Qed.

Lemma resolve_pending c out (now : Z) w e :
  pending w !! c = Some e →
  let mounted := default false (isMounted <$> effects w !! e) in
  ∃ result,
    geminiService.analyzeWeedImage out geminiService.DatasetBeet = Normal result
    ∧ (resolve c out now w).2 = Normal tt
    ∧ liveDetections (app (resolve c out now w).1)
      = (if mounted
         then match detections result with
              | Some ds => mappedDetections (λ _, now) ds
              | None => liveDetections (app w)
              end
         else liveDetections (app w))
    ∧ detectedWeedTypes (app (resolve c out now w).1)
      = (if mounted
         then match detections result with
              | Some ds => detectedWeedTypes (app w)
                           ∪ list_to_set (weedType <$> ds)
              | None => detectedWeedTypes (app w)
              end
         else detectedWeedTypes (app w))
    ∧ disabledWeedTypes (app (resolve c out now w).1) = disabledWeedTypes (app w)
    ∧ stream (app (resolve c out now w).1) = stream (app w)
    ∧ effects (resolve c out now w).1 = effects w
    ∧ pending (resolve c out now w).1 = delete c (pending w)
    ∧ dispatched (resolve c out now w).1 = dispatched w.
Proof. apply resolve_timed_pending. Qed.

End steps.

(** C10. When a call of the live loop settles with a parsed array of
    detections while its effect is still mounted, the category of every
    detection of the array, with or without a box, is in
    [detectedWeedTypes] afterwards, and [liveDetections] holds, in order,
    one box for each detection that carries at least four numbers: a
    detection with no box or a shorter one gives no box. *)
Theorem live_reconciliation
    (w : World) (c e : nat) (eff : Effect) (data : geminiService.RawAnalysis)
    (rs : list geminiService.RawDetection) (now : Z) :
  pending w !! c = Some e →
  effects w !! e = Some eff →
  isMounted eff = true →
  geminiService.raw_detections data = geminiService.DetArray rs →
  let ds := geminiService.with_bbox <$> rs in
  let w' := step w (Resolve c (geminiService.ParseReturns
                                 (geminiService.ParsedObject data)) now) in
  (∀ d, d ∈ ds → weedType d ∈ detectedWeedTypes (app w'))
  ∧ LiveDetection.label <$> liveDetections (app w')
    = weedType <$> List.filter has_box ds
  ∧ (∀ d i, d ∈ ds →
       (bbox d = None ∨ ∃ b, bbox d = Some b ∧ length b < 4) →
       mapDetection now i d = None).
Proof.
  intros Hc He Hm Hrs ds w'. subst w'. cbn [step].
  destruct (resolve_pending c
              (geminiService.ParseReturns (geminiService.ParsedObject data))
              now w e Hc)
    as (result & Hres & _ & Hlive & Hknown & _).
  rewrite He in Hlive, Hknown. cbn [fmap option_fmap option_map default] in *.
  rewrite Hm in Hlive, Hknown.
  assert (detections result = Some ds) as Hds.
  { unfold geminiService.analyzeWeedImage in Hres. cbn in Hres.
    rewrite Hrs in Hres. cbn in Hres. by injection Hres as <-. }
  rewrite Hds in Hlive, Hknown. split; [| split].
  - intros d Hd. rewrite Hknown. apply elem_of_union_r.
    apply elem_of_list_to_set, list_elem_of_fmap. eauto.
  - rewrite Hlive. apply mappedDetections_labels.
  - intros d i _ Hbox. unfold mapDetection.
    destruct Hbox as [-> | (b & -> & Hlen)]; [done |].
    by apply Nat.ltb_lt in Hlen as ->.
Qed.

Lemma live_reconciliation_witness :
  let w' := step Sample.sampling (Resolve 0 (Sample.answer Sample.three) 1000) in
  (∀ d, d ∈ geminiService.with_bbox <$> Sample.three →
        weedType d ∈ detectedWeedTypes (app w'))
  ∧ LiveDetection.label <$> liveDetections (app w')
    = weedType <$> List.filter has_box (geminiService.with_bbox <$> Sample.three)
  ∧ (∀ d i, d ∈ geminiService.with_bbox <$> Sample.three →
       (bbox d = None ∨ ∃ b, bbox d = Some b ∧ length b < 4) →
       mapDetection 1000 i d = None).
Proof.
  apply (live_reconciliation Sample.sampling 0 1
           {| eff_stream := Some 7; eff_isLiveInferencing := false;
              isMounted := true; interval := true |}
           _ Sample.three 1000); reflexivity.
Defined.

(* ===================================================================== *)
(** ** Facts about sessions                                               *)
(* ===================================================================== *)

Section sessions.
Implicit Types (w : World) (eff : Effect) (effs : list Effect) (ev : Event).

Lemma old_effects_retired effs new i eff :
  (∀ j eff', effs !! j = Some eff' → S j < length effs → retired eff') →
  (alter cleanup (pred (length effs)) effs ++ [new])%list !! i = Some eff →
  i < length effs →
  retired eff.
Proof.
  intros Hold Hi Hlt.
  rewrite lookup_app_l in Hi by (rewrite length_alter; lia).
  destruct (decide (i = pred (length effs))) as [-> | Hne].
  - rewrite list_lookup_alter_eq in Hi.
    destruct (effs !! pred (length effs)); simplify_eq/=. by split.
  - rewrite list_lookup_alter_ne in Hi by done. eapply Hold; [done | lia].
Qed.

(** *** What each step leaves alone *)

Lemma getDevices_frame enumerated a :
  stream (getDevices enumerated a) = stream a
  ∧ liveDetections (getDevices enumerated a) = liveDetections a
  ∧ detectedWeedTypes (getDevices enumerated a) = detectedWeedTypes a
  ∧ disabledWeedTypes (getDevices enumerated a) = disabledWeedTypes a
  ∧ isLiveInferencing (getDevices enumerated a) = isLiveInferencing a.
Proof.
  destruct enumerated as [devices |]; [| done].
  unfold getDevices, getDevices_ok.
  repeat match goal with
         | |- context [if ?b then _ else _] => destruct b
         | |- context [match find ?p ?l with _ => _ end] => destruct (find p l)
         end; done.
Qed.

(** A settling [getUserMedia] request touches the stream and the effects
    only. *)
Lemma media_settled_frame r media w :
  dispatched (media_settled r media w) = dispatched w
  ∧ pending (media_settled r media w) = pending w
  ∧ liveDetections (app (media_settled r media w)) = liveDetections (app w)
  ∧ detectedWeedTypes (app (media_settled r media w)) = detectedWeedTypes (app w)
  ∧ disabledWeedTypes (app (media_settled r media w)) = disabledWeedTypes (app w)
  ∧ isLiveInferencing (app (media_settled r media w)) = isLiveInferencing (app w)
  ∧ selectedDeviceId (app (media_settled r media w)) = selectedDeviceId (app w)
  ∧ stoppedStreams (media_settled r media w) = stoppedStreams w.
Proof.
  unfold media_settled.
  destruct (requests w !! r) as [[|] |]; [destruct media | |];
    rewrite ?app_commit, ?pending_commit, ?dispatched_commit,
      ?stoppedStreams_commit; done.
Qed.

(** The stream after a request settles. *)
Lemma media_settled_stream r media w :
  stream (app (media_settled r media w))
  = match requests w !! r, media with
    | Some ByHandleDeviceChange, _ => media
    | Some ByToggleCamera, Some newStream => Some newStream
    | _, _ => stream (app w)
    end.
Proof.
  unfold media_settled.
  destruct (requests w !! r) as [[|] |]; [destruct media | |];
    rewrite ?app_commit; done.
Qed.

(** The start of a device switch touches the selection, the stopped
    streams and the requests only. *)
Lemma handleDeviceChange_begin_frame newDeviceId w :
  let w' := handleDeviceChange_begin newDeviceId w in
  dispatched w' = dispatched w
  ∧ pending w' = pending w
  ∧ effects w' = effects w
  ∧ stream (app w') = stream (app w)
  ∧ liveDetections (app w') = liveDetections (app w)
  ∧ detectedWeedTypes (app w') = detectedWeedTypes (app w)
  ∧ disabledWeedTypes (app w') = disabledWeedTypes (app w)
  ∧ isLiveInferencing (app w') = isLiveInferencing (app w)
  ∧ selectedDeviceId (app w') = newDeviceId.
Proof.
  unfold handleDeviceChange_begin.
  destruct (stream (app w)) as [s |] eqn:Hs; cbn; by rewrite ?Hs.
Qed.

(** A timer tick touches the in-flight flag only, unless it makes a call:
    then the call is awaited by the ticking effect, whose timer is
    registered and which closed over a stream. *)
Lemma tick_frame e env w :
  effects (tick e env w) = effects w
  ∧ stream (app (tick e env w)) = stream (app w)
  ∧ liveDetections (app (tick e env w)) = liveDetections (app w)
  ∧ detectedWeedTypes (app (tick e env w)) = detectedWeedTypes (app w)
  ∧ disabledWeedTypes (app (tick e env w)) = disabledWeedTypes (app w)
  ∧ ((pending (tick e env w) = pending w
      ∧ dispatched (tick e env w) = dispatched w)
     ∨ (pending (tick e env w) = <[dispatched w := e]> (pending w)
        ∧ dispatched (tick e env w) = S (dispatched w)
        ∧ ∃ eff, effects w !! e = Some eff ∧ interval eff = true
                 ∧ is_Some (eff_stream eff))).
Proof.
  unfold tick. destruct (effects w !! e) as [eff |] eqn:He; [| by intuition].
  destruct (interval eff) eqn:Hi; [| by intuition].
  unfold captureFrameAndAnalyze.
  destruct (videoRef_current env) as [readyState |]; [| by intuition].
  destruct (eff_stream eff) as [s |] eqn:Hs; [| by intuition].
  destruct (eff_isLiveInferencing eff); [by intuition |].
  destruct (negb (readyState =? 4)%Z); [| destruct (getContext_2d env);
    [destruct (capture_throws env) |]];
    try (match goal with
         | |- context [finally_clear ?e ?w] =>
             destruct (finally_clear_frame e w) as (-> & -> & -> & -> & -> & -> & ->)
         end; by intuition).
  repeat split; try done. right. repeat split; try done.
  exists eff. by rewrite Hs.
Qed.

(** A settling call touches the displayed boxes, the recorded categories,
    the in-flight flag and the awaited calls only. *)
Lemma resolve_timed_frame c out clock w :
  effects (resolve_timed c out clock w).1 = effects w
  ∧ stream (app (resolve_timed c out clock w).1) = stream (app w)
  ∧ disabledWeedTypes (app (resolve_timed c out clock w).1)
    = disabledWeedTypes (app w)
  ∧ dispatched (resolve_timed c out clock w).1 = dispatched w
  ∧ (∀ c' e, pending (resolve_timed c out clock w).1 !! c' = Some e →
             pending w !! c' = Some e).
Proof.
  destruct (pending w !! c) as [e |] eqn:Hc.
  - destruct (resolve_timed_pending c out clock w e Hc)
      as (_ & _ & _ & _ & _ & -> & -> & -> & -> & ->).
    repeat split; try done.
    intros c' e' Hc'. by apply lookup_delete_Some in Hc' as [_ Hc'].
  - unfold resolve_timed. by rewrite Hc.
Qed.

(** Every step leaves the effect closures as they are, or cleans up the
    current one and runs the effect again. *)
Lemma effects_commit prev w0 w :
  effects w0 = effects w →
  effects (commit prev w0) = effects w
  ∨ ∃ new, effects (commit prev w0)
           = (alter cleanup (pred (length (effects w))) (effects w) ++ [new])%list.
Proof.
  intros <-. unfold commit. case_decide; [by left | right; by eexists].
Qed.

Lemma effects_media_settled r media w :
  effects (media_settled r media w) = effects w
  ∨ ∃ new, effects (media_settled r media w)
           = (alter cleanup (pred (length (effects w))) (effects w) ++ [new])%list.
Proof.
  unfold media_settled.
  destruct (requests w !! r) as [[|] |]; [destruct media | |];
    try (by left); by apply effects_commit.
Qed.

Lemma effects_toggleCamera_begin w :
  effects (toggleCamera_begin w) = effects w
  ∨ ∃ new, effects (toggleCamera_begin w)
           = (alter cleanup (pred (length (effects w))) (effects w) ++ [new])%list.
Proof.
  unfold toggleCamera_begin. destruct (stream (app w)); [| by left].
  by apply effects_commit.
Qed.

Lemma effects_step w ev :
  effects (step w ev) = effects w
  ∨ ∃ new, effects (step w ev)
           = (alter cleanup (pred (length (effects w))) (effects w) ++ [new])%list.
Proof.
  destruct ev as [media | newId media | enum | e env | c out now | type
                 | | newId | r media | c out clock]; cbn [step].
  - unfold toggleCamera. destruct (stream (app w)) eqn:Hs.
    + apply effects_toggleCamera_begin.
    + unfold toggleCamera_begin. rewrite Hs.
      exact (effects_media_settled _ media (request_media ByToggleCamera w)).
  - unfold handleDeviceChange.
    pose proof (handleDeviceChange_begin_frame newId w) as (_ & _ & E & _).
    destruct (stream (app w)); [| by left].
    rewrite <- E. apply effects_media_settled.
  - by left.
  - left. apply tick_frame.
  - left. apply resolve_timed_frame.
  - by left.
  - apply effects_toggleCamera_begin.
  - left. apply handleDeviceChange_begin_frame.
  - apply effects_media_settled.
  - left. apply resolve_timed_frame.
Qed.

(** *** The invariant *)

Lemma coherent_frame w w' :
  effects w' = effects w →
  (∀ c e, pending w' !! c = Some e → pending w !! c = Some e) →
  stream (app w') = stream (app w) →
  coherent w → coherent w'.
Proof.
  intros He Hp Hs ((Hold & Hpend) & Hcalls & Hcur). split; [split | split].
  - rewrite He. exact Hold.
  - intros c e Hc. rewrite He. eauto.
  - intros c e eff Hc Heff. rewrite He in Heff. eauto.
  - unfold current_effect. rewrite He, Hs. exact Hcur.
Qed.

Lemma coherent_commit prev w :
  settled w → streamed_calls w →
  (stream (app w) = prev → current_effect w) →
  coherent (commit prev w).
Proof.
  intros [Hold Hpend] Hcalls Hcur. unfold commit.
  destruct (decide (stream (app w) = prev)) as [Heq | Hne];
    [exact (conj (conj Hold Hpend) (conj Hcalls (Hcur Heq))) |].
  split; [split | split]; cbn [effects pending with_effects app].
  - intros i eff Hi Hlt.
    rewrite length_app, length_alter in Hlt. cbn [length] in Hlt.
    eapply old_effects_retired; [exact Hold | exact Hi | lia].
  - intros c e Hc. rewrite length_app, length_alter.
    specialize (Hpend c e Hc). lia.
  - intros c e eff Hc Heff. cbn [effects pending with_effects] in Hc, Heff.
    specialize (Hpend c e Hc).
    rewrite lookup_app_l in Heff by (rewrite length_alter; lia).
    destruct (decide (e = pred (length (effects w)))) as [-> | Hne'].
    + rewrite list_lookup_alter_eq in Heff.
      destruct (effects w !! pred (length (effects w))) as [eff0 |] eqn:E;
        simplify_eq/=. by eapply Hcalls.
    + rewrite list_lookup_alter_ne in Heff by done. by eapply Hcalls.
  - exists (run_effect (app w)). cbn [effects with_effects app].
    by rewrite last_snoc.
Qed.

Lemma coherent_media_settled r media w :
  coherent w → coherent (media_settled r media w).
Proof.
  intros Hw. pose proof Hw as (Hset & Hcalls & Hcur). unfold media_settled.
  destruct (requests w !! r) as [[|] |]; [destruct media as [newStream |] | |];
    try exact Hw.
  - apply coherent_commit; [exact Hset | exact Hcalls |].
    cbn [app with_app with_requests stream setStream]. intros Heq.
    unfold current_effect. cbn [app with_app with_requests stream setStream effects].
    rewrite Heq. exact Hcur.
  - apply coherent_commit; [exact Hset | exact Hcalls |].
    cbn [app with_app with_requests stream setStream]. intros Heq.
    unfold current_effect. cbn [app with_app with_requests stream setStream effects].
    rewrite Heq. exact Hcur.
Qed.

Lemma coherent_toggleCamera_begin w :
  coherent w → coherent (toggleCamera_begin w).
Proof.
  intros Hw. pose proof Hw as (Hset & Hcalls & Hcur). unfold toggleCamera_begin.
  destruct (stream (app w)) as [s |]; [| exact Hw].
  apply coherent_commit; [exact Hset | exact Hcalls | done].
Qed.

Lemma coherent_handleDeviceChange_begin newDeviceId w :
  coherent w → coherent (handleDeviceChange_begin newDeviceId w).
Proof.
  pose proof (handleDeviceChange_begin_frame newDeviceId w)
    as (_ & Hp & He & Hs & _).
  apply coherent_frame; [exact He | by rewrite Hp | exact Hs].
Qed.

Lemma coherent_tick e env w : coherent w → coherent (tick e env w).
Proof.
  intros Hw. pose proof Hw as ((Hold & Hpend) & Hcalls & Hcur).
  destruct (tick_frame e env w) as (He & Hs & _ & _ & _ & Hp).
  destruct Hp as [[Hp _] | (Hp & _ & eff & Heff & _ & Hstream)].
  - revert Hw. apply coherent_frame; [exact He | by rewrite Hp | exact Hs].
  - split; [split | split].
    + rewrite He. exact Hold.
    + intros c e' Hc. rewrite He. rewrite Hp in Hc.
      apply lookup_insert_Some in Hc as [[_ <-] | [_ Hc]].
      * by eapply lookup_lt_Some.
      * by eapply Hpend.
    + intros c e' eff' Hc Heff'. rewrite He in Heff'. rewrite Hp in Hc.
      apply lookup_insert_Some in Hc as [[_ <-] | [_ Hc]].
      * by simplify_eq.
      * by eapply Hcalls.
    + unfold current_effect. rewrite He, Hs. exact Hcur.
Qed.

Lemma coherent_resolve_timed c out clock w :
  coherent w → coherent (resolve_timed c out clock w).1.
Proof.
  destruct (resolve_timed_frame c out clock w) as (He & Hs & _ & _ & Hp).
  by apply coherent_frame.
Qed.

Lemma coherent_step w ev : coherent w → coherent (step w ev).
Proof.
  intros Hw.
  destruct ev as [media | newId media | enum | e env | c out now | type
                 | | newId | r media | c out clock]; cbn [step].
  - unfold toggleCamera. destruct (stream (app w)).
    + by apply coherent_toggleCamera_begin.
    + by apply coherent_media_settled, coherent_toggleCamera_begin.
  - unfold handleDeviceChange. destruct (stream (app w)).
    + by apply coherent_media_settled, coherent_handleDeviceChange_begin.
    + by apply coherent_handleDeviceChange_begin.
  - revert Hw. apply coherent_frame; [done | done |].
    apply getDevices_frame.
  - by apply coherent_tick.
  - by apply coherent_resolve_timed.
  - revert Hw. by apply coherent_frame.
  - by apply coherent_toggleCamera_begin.
  - by apply coherent_handleDeviceChange_begin.
  - by apply coherent_media_settled.
  - by apply coherent_resolve_timed.
Qed.

Lemma coherent_run evs w : coherent w → coherent (run w evs).
Proof.
  revert w. induction evs as [| ev evs IH]; intros w Hw; [done |].
  cbn [run fold_left]. apply IH. by apply coherent_step.
Qed.

Lemma coherent_initial : coherent initial.
Proof.
  split; [split | split].
  - intros i eff Hi Hlt. cbn in Hlt. lia.
  - intros c e Hc. unfold initial in Hc. cbn [pending] in Hc.
    by rewrite lookup_empty in Hc.
  - intros c e eff Hc. unfold initial in Hc. cbn [pending] in Hc.
    by rewrite lookup_empty in Hc.
  - by exists (run_effect initial_app).
Qed.

Lemma reachable_coherent w : reachable w → coherent w.
Proof. intros [evs ->]. apply coherent_run, coherent_initial. Qed.


Lemma run_app w evs1 evs2 : run w (evs1 ++ evs2) = run (run w evs1) evs2.
Proof. apply fold_left_app. Qed.

Lemma reachable_run w evs : reachable w → reachable (run w evs).
Proof. intros [evs0 ->]. exists (evs0 ++ evs)%list. by rewrite run_app. Qed.

Lemma reachable_step w ev : reachable w → reachable (step w ev).
Proof. apply (reachable_run w [ev]). Qed.

(** *** Without a stream *)

(** Without a stream no timer is registered and every awaited call
    belongs to an unmounted effect. *)
Lemma coherent_quiet w : coherent w → stream (app w) = None → quiet w.
Proof.
  intros ((Hold & Hpend) & Hcalls & (cur & Hlast & Hcs & _ & Hci)) Hs.
  rewrite Hs in Hcs, Hci. cbn in Hci.
  rewrite last_lookup in Hlast.
  assert (∀ i eff, effects w !! i = Some eff →
                   (isMounted eff = false ∨ eff = cur) ∧ interval eff = false)
    as Hall.
  { intros i eff Hi.
    destruct (decide (S i < length (effects w))) as [Hlt | Hge].
    - destruct (Hold i eff Hi Hlt). by auto.
    - apply lookup_lt_Some in Hi as Hlt.
      replace (pred (length (effects w))) with i in Hlast by lia.
      rewrite Hi in Hlast. injection Hlast as ->. by auto. }
  split; [exact Hs |]. split.
  - apply Forall_lookup. intros i eff Hi. by apply (Hall i).
  - intros c e eff Hc He. destruct (Hall e eff He) as [[Hm | ->] _]; [done |].
    destruct (Hcalls c e cur Hc He) as [s Hsome]. congruence.
Qed.

(** Without a timer and with every awaited call unmounted, no event makes
    a call, displays a box or records or forgets a category. *)
Lemma quiet_frame w ev :
  quiet w →
  dispatched (step w ev) = dispatched w
  ∧ liveDetections (app (step w ev)) = liveDetections (app w)
  ∧ detectedWeedTypes (app (step w ev)) = detectedWeedTypes (app w).
Proof.
  intros (Hs & Hint & Hpend).
  assert (∀ c out clock,
            dispatched (resolve_timed c out clock w).1 = dispatched w
            ∧ liveDetections (app (resolve_timed c out clock w).1)
              = liveDetections (app w)
            ∧ detectedWeedTypes (app (resolve_timed c out clock w).1)
              = detectedWeedTypes (app w)) as Hres.
  { intros c out clock. destruct (pending w !! c) as [e |] eqn:Hc;
      [| unfold resolve_timed; by rewrite Hc].
    destruct (resolve_timed_pending c out clock w e Hc)
      as (result & _ & _ & E1 & E2 & _ & _ & _ & _ & E3).
    assert (default false (isMounted <$> effects w !! e) = false) as Hm.
    { destruct (effects w !! e) as [eff |] eqn:He; [| done]. by eapply Hpend. }
    by rewrite Hm in E1, E2. }
  destruct ev as [media | newId media | enum | e env | c out now | type
                 | | newId | r media | c out clock]; cbn [step].
  - unfold toggleCamera, toggleCamera_begin. rewrite Hs.
    by destruct (media_settled_frame (requested w) media
                   (request_media ByToggleCamera w))
      as (-> & _ & -> & -> & _).
  - unfold handleDeviceChange. rewrite Hs.
    by destruct (handleDeviceChange_begin_frame newId w)
      as (-> & _ & _ & _ & -> & -> & _).
  - destruct (getDevices_frame enum (app w)) as (_ & E2 & E3 & _).
    cbn [app with_app dispatched]. by rewrite E2, E3.
  - unfold tick. destruct (effects w !! e) as [eff |] eqn:He; [| done].
    rewrite Forall_lookup in Hint. by rewrite (Hint e eff He).
  - apply Hres.
  - done.
  - unfold toggleCamera_begin. by rewrite Hs.
  - by destruct (handleDeviceChange_begin_frame newId w)
      as (-> & _ & _ & _ & -> & -> & _).
  - by destruct (media_settled_frame r media w) as (-> & _ & -> & -> & _).
  - apply Hres.
Qed.

(** Without a stream, only a press of the camera button or a settling
    [getUserMedia] request can bring one. *)
Lemma stream_stays_none w ev :
  stream (app w) = None → ¬ is_start ev → ¬ delivers_stream ev →
  stream (app (step w ev)) = None.
Proof.
  intros Hs Hstart Hdel.
  destruct ev as [media | newId media | enum | e env | c out now | type
                 | | newId | r media | c out clock]; cbn [step].
  - by destruct Hstart.
  - unfold handleDeviceChange. rewrite Hs.
    by destruct (handleDeviceChange_begin_frame newId w) as (_ & _ & _ & -> & _).
  - destruct (getDevices_frame enum (app w)) as (E & _).
    cbn [app with_app]. by rewrite E.
  - by destruct (tick_frame e env w) as (_ & -> & _).
  - unfold resolve.
    by destruct (resolve_timed_frame c out (λ _, now) w) as (_ & -> & _).
  - done.
  - by destruct Hstart.
  - by destruct (handleDeviceChange_begin_frame newId w) as (_ & _ & _ & -> & _).
  - rewrite media_settled_stream. destruct media; [by destruct Hdel |].
    by destruct (requests w !! r) as [[|] |].
  - by destruct (resolve_timed_frame c out clock w) as (_ & -> & _).
Qed.

(** As long as the camera button is not pressed and no [getUserMedia]
    request delivers a stream, a component without stream makes no call
    and keeps what it displays and what it recorded. *)
Lemma quiet_run evs w :
  coherent w → stream (app w) = None →
  Forall (λ ev, ¬ is_start ev ∧ ¬ delivers_stream ev) evs →
  dispatched (run w evs) = dispatched w
  ∧ liveDetections (app (run w evs)) = liveDetections (app w)
  ∧ detectedWeedTypes (app (run w evs)) = detectedWeedTypes (app w)
  ∧ stream (app (run w evs)) = None.
Proof.
  revert w. induction evs as [| ev evs IH]; intros w Hw Hs Hevs; [done |].
  apply Forall_cons in Hevs as [[Hstart Hdel] Hevs]. cbn [run fold_left].
  destruct (quiet_frame w ev (coherent_quiet w Hw Hs)) as (E1 & E2 & E3).
  destruct (IH (step w ev) (coherent_step w ev Hw)
              (stream_stays_none w ev Hs Hstart Hdel) Hevs)
    as (F1 & F2 & F3 & F4).
  unfold run in *. repeat split; congruence.
Qed.

(** *** Retired effects *)

(** An effect whose cleanup ran stays as it is. *)
Lemma retired_step w ev e eff :
  effects w !! e = Some eff → retired eff →
  ∃ eff', effects (step w ev) !! e = Some eff' ∧ retired eff'.
Proof.
  intros He Hr. destruct (effects_step w ev) as [-> | [new ->]]; [eauto |].
  rewrite lookup_app_l by (rewrite length_alter; by eapply lookup_lt_Some).
  destruct (decide (e = pred (length (effects w)))) as [E | E].
  - rewrite <- E, list_lookup_alter_eq, He. cbn. eexists. split; [done |].
    by split.
  - rewrite list_lookup_alter_ne by done. eauto.
Qed.

Lemma retired_run evs w e eff :
  effects w !! e = Some eff → retired eff →
  ∃ eff', effects (run w evs) !! e = Some eff' ∧ retired eff'.
Proof.
  revert w eff. induction evs as [| ev evs IH]; intros w eff He Hr; [eauto |].
  cbn [run fold_left].
  destruct (retired_step w ev e eff He Hr) as (eff' & He' & Hr'). eauto.
Qed.

(** Stopping retires every effect that exists. *)
Lemma toggleCamera_retires w s media e :
  settled w → stream (app w) = Some s → e < length (effects w) →
  ∃ eff, effects (toggleCamera media w) !! e = Some eff ∧ retired eff.
Proof.
  intros [Hold _] Hs He. unfold toggleCamera, toggleCamera_begin. rewrite Hs.
  unfold commit. cbn [app with_app stop_tracks stream setStream
    setLiveDetections setDetectedWeedTypes effects].
  rewrite decide_False by done. cbn [effects with_effects].
  destruct (lookup_lt_is_Some_2
              (alter cleanup (pred (length (effects w))) (effects w)
               ++ [run_effect
                     (setDetectedWeedTypes (Next ∅)
                        (setLiveDetections [] (setStream None (app w))))])%list
              e) as [eff Heff].
  { rewrite length_app, length_alter. lia. }
  exists eff. split; [exact Heff |].
  exact (old_effects_retired _ _ _ _ Hold Heff He).
Qed.

(** The timer of a retired effect was cleared: its tick runs nothing. *)
Lemma retired_tick w e eff env :
  effects w !! e = Some eff → retired eff → tick e env w = w.
Proof. intros He [_ Hi]. unfold tick. by rewrite He, Hi. Qed.

(** What an unmounted effect awaited is dropped when it arrives. *)
Lemma unmounted_resolve_timed w c e eff out clock :
  pending w !! c = Some e → effects w !! e = Some eff → isMounted eff = false →
  liveDetections (app (resolve_timed c out clock w).1) = liveDetections (app w)
  ∧ detectedWeedTypes (app (resolve_timed c out clock w).1)
    = detectedWeedTypes (app w).
Proof.
  intros Hc He Hm.
  destruct (resolve_timed_pending c out clock w e Hc)
    as (result & _ & _ & E1 & E2 & _).
  rewrite He in E1, E2. cbn [fmap option_fmap option_map default] in *.
  by rewrite Hm in E1, E2.
Qed.

(** The closure's guard reads the flag it closed over: whatever the state
    says, a tick of a live effect that closed over [false] makes a call. *)
Lemma tick_dispatches w e eff s :
  effects w !! e = Some eff → interval eff = true →
  eff_stream eff = Some s → eff_isLiveInferencing eff = false →
  dispatched (tick e ready w) = S (dispatched w)
  ∧ pending (tick e ready w) = <[dispatched w := e]> (pending w).
Proof.
  intros He Hi Hs Hf. unfold tick, captureFrameAndAnalyze.
  by rewrite He, Hi, Hs, Hf.
Qed.

End sessions.

(** C1, evaluated. A session starts, a tick dispatches call 0 and sets
    the in-flight flag; a second tick of the same timer, while call 0 is
    still awaited and the flag still set, dispatches call 1: two calls are
    outstanding. *)
Theorem two_ticks_two_dispatches :
  let w1 := run initial [ToggleCamera (Some 7); Tick 1 ready] in
  let w2 := step w1 (Tick 1 ready) in
  (isLiveInferencing (app w1) = true
   ∧ dispatched w1 = 1
   ∧ pending w1 = {[0 := 1]})
  ∧ (isLiveInferencing (app w2) = true
     ∧ dispatched w2 = 2
     ∧ pending w2 = {[0 := 1; 1 := 1]}
     ∧ size (pending w2) = 2).
Proof. vm_compute. by repeat split. Qed.

(** C2, as the code has it. When the call fails, the cycle completes
    normally and records no category; as [analyzeWeedImage] answers a
    failure with an empty list of detections, a cycle whose effect is
    still mounted replaces the displayed boxes by the empty list, and only
    a cycle whose effect was cleaned up leaves them as they were. *)
Theorem failed_cycle
    (w : World) (c e : nat) (eff : Effect) (out : geminiService.GeminiOutcome)
    (now : Z) (err : JsError) :
  pending w !! c = Some e →
  effects w !! e = Some eff →
  geminiService.analyzeWeedImage_try out = Throw err →
  (resolve c out now w).2 = Normal tt
  ∧ liveDetections (app (step w (Resolve c out now)))
    = (if isMounted eff then [] else liveDetections (app w))
  ∧ detectedWeedTypes (app (step w (Resolve c out now)))
    = detectedWeedTypes (app w).
Proof.
  intros Hc He Hthrow. cbn [step].
  destruct (resolve_pending c out now w e Hc)
    as (result & Hres & Hnormal & Hlive & Hknown & _).
  rewrite He in Hlive, Hknown. cbn [fmap option_fmap option_map default] in *.
  rewrite (analyzeWeedImage_caught out _ err Hthrow) in Hres.
  assert (detections result = Some []) as Hds.
  { injection Hres as <-. by destruct (geminiService.is_rate_limit err). }
  rewrite Hds in Hlive, Hknown. split; [done |]. split.
  - rewrite Hlive. by destruct (isMounted eff).
  - rewrite Hknown. destruct (isMounted eff); [| done].
    change (weedType <$> []) with (@nil string). set_solver.
Qed.

Lemma failed_cycle_witness :
  (resolve 1 (geminiService.CallRejected Sample.rate_limited) 2000
     Sample.showing).2 = Normal tt
  ∧ liveDetections
      (app (step Sample.showing
              (Resolve 1 (geminiService.CallRejected Sample.rate_limited) 2000)))
    = []
  ∧ detectedWeedTypes
      (app (step Sample.showing
              (Resolve 1 (geminiService.CallRejected Sample.rate_limited) 2000)))
    = detectedWeedTypes (app Sample.showing).
Proof.
  apply (failed_cycle Sample.showing 1 1
           {| eff_stream := Some 7; eff_isLiveInferencing := false;
              isMounted := true; interval := true |}
           (geminiService.CallRejected Sample.rate_limited) 2000
           Sample.rate_limited); reflexivity.
Defined.

(** C2 as stated fails: one box is displayed, the awaited call is
    rejected with status 429, and afterwards no box is displayed. *)
Lemma failed_cycle_clears_regions :
  let w' := step Sample.showing
              (Resolve 1 (geminiService.CallRejected Sample.rate_limited) 2000) in
  length (liveDetections (app Sample.showing)) = 1
  ∧ liveDetections (app w') = []
  ∧ liveDetections (app w') ≠ liveDetections (app Sample.showing).
Proof.
  vm_compute. repeat split. discriminate.
Qed.

(** What stopping a session cancels. From any reachable state with a
    stream, after [toggleCamera] stops the session: whatever happens later,
    the tick of a timer that existed at the stop runs nothing, and a call
    awaited by an effect that existed at the stop changes neither the
    displayed boxes nor the recorded categories when it settles; and as
    long as the camera button is not pressed and no [getUserMedia] request
    delivers a stream, no timer tick (of whichever effect) and no settling
    call (with whichever result) makes a call of the analyzer, displays a
    box or records a category. *)
Theorem stop_cancels_sampling
    (w : World) (s : MediaStream) (media : option MediaStream)
    (evs : list Event) :
  reachable w →
  stream (app w) = Some s →
  let w' := run (step w (ToggleCamera media)) evs in
  (∀ e env, e < length (effects w) → step w' (Tick e env) = w')
  ∧ (∀ c e out clock,
       pending w' !! c = Some e → e < length (effects w) →
       liveDetections (app (step w' (ResolveTimed c out clock)))
       = liveDetections (app w')
       ∧ detectedWeedTypes (app (step w' (ResolveTimed c out clock)))
         = detectedWeedTypes (app w'))
  ∧ (Forall (λ ev, ¬ is_start ev ∧ ¬ delivers_stream ev) evs →
     dispatched w' = dispatched w
     ∧ liveDetections (app w') = []
     ∧ detectedWeedTypes (app w') = ∅
     ∧ stream (app w') = None).
Proof.
  intros Hreach Hs w'. subst w'. cbn [step].
  pose proof (reachable_coherent w Hreach) as Hw.
  pose proof Hw as (Hset & _).
  assert (∀ e, e < length (effects w) →
               ∃ eff, effects (run (toggleCamera media w) evs) !! e = Some eff
                      ∧ retired eff) as Hret.
  { intros e He.
    destruct (toggleCamera_retires w s media e Hset Hs He) as (eff & Heff & Hr).
    by apply retired_run with eff. }
  split; [| split].
  - intros e env He. destruct (Hret e He) as (eff & Heff & Hr).
    by apply retired_tick with eff.
  - intros c e out clock Hc He. destruct (Hret e He) as (eff & Heff & [Hm _]).
    by apply unmounted_resolve_timed with e eff.
  - intros Hevs.
    assert (stream (app (toggleCamera media w)) = None
            ∧ liveDetections (app (toggleCamera media w)) = []
            ∧ detectedWeedTypes (app (toggleCamera media w)) = ∅
            ∧ dispatched (toggleCamera media w) = dispatched w)
      as (Hs' & Hlive & Hknown & Hd).
    { unfold toggleCamera, toggleCamera_begin. rewrite Hs.
      by rewrite app_commit, dispatched_commit. }
    destruct (quiet_run evs (toggleCamera media w)
                (coherent_step w (ToggleCamera media) Hw) Hs' Hevs)
      as (E1 & E2 & E3 & E4).
    repeat split; congruence.
Qed.

Lemma stop_cancels_sampling_witness :
  let w := run Sample.switching [Tick 1 ready] in
  let w' := run (step w (ToggleCamera None))
              [Tick 1 ready; MediaSettled 1 None;
               Resolve 0 (Sample.answer Sample.three) 5000; Tick 2 ready] in
  step w' (Tick 1 ready) = w'
  ∧ dispatched w' = dispatched w
  ∧ liveDetections (app w') = []
  ∧ detectedWeedTypes (app w') = ∅
  ∧ stream (app w') = None.
Proof.
  pose proof (stop_cancels_sampling (run Sample.switching [Tick 1 ready]) 7 None
                [Tick 1 ready; MediaSettled 1 None;
                 Resolve 0 (Sample.answer Sample.three) 5000; Tick 2 ready])
    as H.
  destruct H as (Hold & _ & Hquiet).
  - exists [ToggleCamera (Some 7); DeviceChangeRequested "cam-b"; Tick 1 ready].
    reflexivity.
  - reflexivity.
  - split.
    + apply Hold. vm_compute. lia.
    + apply Hquiet. repeat constructor; exact (λ F : False, F).
Defined.

(** C3, evaluated. A session is running and a device switch awaits its
    stream when the camera button stops the session; the stream arrives
    after the stop and [handleDeviceChange] sets it, the camera button not
    being pressed again; the effect runs again with a new timer, and its
    tick makes a call of the analyzer: a call is made after the stop. *)
Theorem switch_pending_at_stop_dispatches :
  let w0 := run initial [ToggleCamera (Some 7); DeviceChangeRequested "cam-b"] in
  let w1 := step w0 (ToggleCamera None) in
  let w2 := run w1 [MediaSettled 1 (Some 8); Tick 3 ready] in
  (stream (app w0) = Some 7 ∧ requests w0 !! 1 = Some ByHandleDeviceChange)
  ∧ (stream (app w1) = None ∧ dispatched w1 = 0)
  ∧ (stream (app w2) = Some 8
     ∧ dispatched w2 = 1
     ∧ pending w2 = {[0 := 3]}
     ∧ dispatched w2 ≠ dispatched w1).
Proof. vm_compute. repeat split. discriminate. Qed.

(** C5, as the code has it. Stopping the session stops the stream's
    tracks, drops the stream, clears the displayed boxes and empties
    [detectedWeedTypes]; [disabledWeedTypes] keeps its value. *)
Theorem toggleCamera_stop
    (w : World) (s : MediaStream) (media : option MediaStream) :
  stream (app w) = Some s →
  let w' := step w (ToggleCamera media) in
  stream (app w') = None
  ∧ liveDetections (app w') = []
  ∧ detectedWeedTypes (app w') = ∅
  ∧ disabledWeedTypes (app w') = disabledWeedTypes (app w)
  ∧ s ∈ stoppedStreams w'.
Proof.
  intros Hs w'. subst w'. cbn [step]. unfold toggleCamera, toggleCamera_begin.
  rewrite Hs. rewrite app_commit, stoppedStreams_commit. cbn.
  repeat split. by left.
Qed.

Lemma toggleCamera_stop_witness :
  let w' := step Sample.hiding (ToggleCamera None) in
  stream (app w') = None
  ∧ liveDetections (app w') = []
  ∧ detectedWeedTypes (app w') = ∅
  ∧ disabledWeedTypes (app w') = disabledWeedTypes (app Sample.hiding)
  ∧ 7 ∈ stoppedStreams w'.
Proof.
  apply (toggleCamera_stop Sample.hiding 7 None). reflexivity.
Defined.

(** C5 as stated fails: with "Fat Hen" hidden, stopping the session
    leaves "Fat Hen" hidden. *)
Lemma stop_keeps_disabledWeedTypes :
  let w' := step Sample.hiding (ToggleCamera None) in
  stream (app Sample.hiding) = Some 7
  ∧ "Fat Hen" ∈ disabledWeedTypes (app w')
  ∧ disabledWeedTypes (app w') ≠ ∅.
Proof.
  assert ("Fat Hen" ∈ disabledWeedTypes (app (step Sample.hiding (ToggleCamera None))))
    as Hin by (apply (bool_decide_unpack _); vm_compute; exact I).
  split; [reflexivity |]. split; [exact Hin |].
  intros Hempty. rewrite Hempty in Hin. by apply not_elem_of_empty in Hin.
Qed.

(* ===================================================================== *)
(** ** Facts about strings                                                *)
(* ===================================================================== *)

Section strings.
Implicit Types (s sub pre post : string) (c : ascii).

Lemma append_cons c s post :
  (String c s ++ post)%string = String c (s ++ post)%string.
Proof. reflexivity. Qed.

Lemma prefix_spec sub s :
  String.prefix sub s = true ↔ ∃ post, s = (sub ++ post)%string.
Proof.
  revert s. induction sub as [| a sub IH]; intros [| b s]; simpl.
  - split; [| done]. intros _. by exists EmptyString.
  - split; [| done]. intros _. by exists (String b s).
  - split; [done | by intros [post [=]]].
  - destruct (ascii_dec a b) as [-> | Hne].
    + rewrite IH. split; intros [post Hpost]; exists post;
        [by subst s | rewrite append_cons in Hpost; by injection Hpost].
    + split; [done |]. intros [post Hpost]. rewrite append_cons in Hpost.
      congruence.
Qed.

Lemma includes_unfold sub s :
  includes sub s =
    if String.prefix sub s then true
    else match s with
         | EmptyString => false
         | String _ s' => includes sub s'
         end.
Proof. by destruct s. Qed.

(** [includes] finds an occurrence anywhere in the string. *)
Lemma includes_spec sub s :
  includes sub s = true ↔ ∃ pre post, s = (pre ++ sub ++ post)%string.
Proof.
  split.
  - induction s as [| c s IH]; rewrite includes_unfold;
      destruct (String.prefix sub _) eqn:Hp.
    + intros _. apply prefix_spec in Hp as [post ->]. by exists EmptyString, post.
    + done.
    + intros _. apply prefix_spec in Hp as [post ->]. by exists EmptyString, post.
    + intros Hs. destruct (IH Hs) as (pre & post & ->).
      by exists (String c pre), post.
  - intros (pre & post & ->). induction pre as [| c pre IH];
      rewrite includes_unfold.
    + change ("" ++ sub ++ post)%string with (sub ++ post)%string.
      by rewrite (proj2 (prefix_spec sub (sub ++ post)) (ex_intro _ post eq_refl)).
    + rewrite append_cons. by destruct (String.prefix sub _).
Qed.

Lemma includes_false sub s :
  includes sub s = false ↔ ¬ ∃ pre post, s = (pre ++ sub ++ post)%string.
Proof. rewrite <- includes_spec. by destruct (includes sub s). Qed.

End strings.

(** The advice of a failed analysis tells a rate limit from any other
    failure: it is the rate-limit text exactly when the error's message
    contains "429" somewhere, or its status is the number 429 or the
    string "RESOURCE_EXHAUSTED"; otherwise it is the connection text.  In
    both cases the crop context is the dataset that was asked for. *)
Theorem analyzeWeedImage_advice
    (out : geminiService.GeminiOutcome) (ctx : geminiService.DatasetContext)
    (err : JsError) :
  geminiService.analyzeWeedImage_try out = Throw err →
  ∃ result,
    geminiService.analyzeWeedImage out ctx = Normal result
    ∧ cropContext result = geminiService.as_cropContext ctx
    ∧ (remediationAdvice result
         = "System is optimizing API usage (Rate Limit Reached). Analysis will resume momentarily."
       ∨ remediationAdvice result = "Connection unstable. Retrying inference...")
    ∧ (remediationAdvice result
         = "System is optimizing API usage (Rate Limit Reached). Analysis will resume momentarily."
       ↔ ((∃ pre post, message err = Some (pre ++ "429" ++ post)%string)
          ∨ status err = StatusNumber 429
          ∨ status err = StatusString "RESOURCE_EXHAUSTED")).
Proof.
  intros Hthrow. rewrite (analyzeWeedImage_caught out ctx err Hthrow).
  eexists. split; [reflexivity |].
  assert (geminiService.is_rate_limit err = true
          ↔ ((∃ pre post, message err = Some (pre ++ "429" ++ post)%string)
             ∨ status err = StatusNumber 429
             ∨ status err = StatusString "RESOURCE_EXHAUSTED")) as Hrl.
  { unfold geminiService.is_rate_limit. rewrite orb_true_iff.
    assert (match message err with
            | Some m => includes "429" m
            | None => false
            end = true
            ↔ ∃ pre post, message err = Some (pre ++ "429" ++ post)%string) as Hm.
    { destruct (message err) as [m |].
      - rewrite includes_spec. split.
        + intros (pre & post & ->). eauto.
        + intros (pre & post & [= ->]). eauto.
      - split; [done | by intros (? & ? & ?)]. }
    assert (match status err with
            | StatusNumber n => (n =? 429)%Z
            | StatusString st => String.eqb st "RESOURCE_EXHAUSTED"
            | StatusAbsent => false
            end = true
            ↔ (status err = StatusNumber 429
               ∨ status err = StatusString "RESOURCE_EXHAUSTED")) as Hs.
    { destruct (status err) as [| n | st].
      - split; [done | by intros [? | ?]].
      - rewrite Z.eqb_eq. split; [intros ->; by left | by intros [[= ->] | ?]].
      - rewrite String.eqb_eq.
        split; [intros ->; by right | by intros [? | [= ->]]]. }
    tauto. }
  destruct (geminiService.is_rate_limit err); cbn.
  - split; [done |]. split; [by left |]. split; [intros _; by apply Hrl | done].
  - split; [done |]. split; [by right |]. split; [done |].
    intros H. by apply Hrl in H.
Qed.

Lemma analyzeWeedImage_advice_witness :
  ∃ result,
    geminiService.analyzeWeedImage
      (geminiService.CallRejected Sample.offline) geminiService.DatasetCotton
    = Normal result
    ∧ cropContext result = Cotton
    ∧ (remediationAdvice result
         = "System is optimizing API usage (Rate Limit Reached). Analysis will resume momentarily."
       ∨ remediationAdvice result = "Connection unstable. Retrying inference...")
    ∧ (remediationAdvice result
         = "System is optimizing API usage (Rate Limit Reached). Analysis will resume momentarily."
       ↔ ((∃ pre post, message Sample.offline = Some (pre ++ "429" ++ post)%string)
          ∨ status Sample.offline = StatusNumber 429
          ∨ status Sample.offline = StatusString "RESOURCE_EXHAUSTED")).
Proof.
  apply (analyzeWeedImage_advice (geminiService.CallRejected Sample.offline)
           geminiService.DatasetCotton Sample.offline).
  reflexivity.
Defined.

(* ===================================================================== *)
(** ** Facts about the cleaning of the answer                             *)
(* ===================================================================== *)

Section cleanText.
Implicit Types (s t body : string) (c : ascii).

Lemma prefix_cons a p c s :
  String.prefix (String a p) (String c s)
  = if ascii_dec a c then String.prefix p s else false.
Proof. reflexivity. Qed.

Lemma prefix_nil s : String.prefix "" s = true.
Proof. by destruct s. Qed.

Lemma append_assoc s t u : ((s ++ t) ++ u)%string = (s ++ t ++ u)%string.
Proof.
  induction s as [| c s IH]; [done |]. rewrite !append_cons. by rewrite IH.
Qed.

Lemma strip_fences_cons c s :
  strip_fences 0 (String c s) =
    if String.prefix "```json" (String c s) then strip_fences 6 s
    else if String.prefix "```" (String c s) then strip_fences 2 s
    else String c (strip_fences 0 s).
Proof. reflexivity. Qed.

(** A character that is no backquote is kept. *)
Lemma strip_fences_keep c s :
  c ≠ "`"%char → strip_fences 0 (String c s) = String c (strip_fences 0 s).
Proof.
  intros Hc. rewrite strip_fences_cons, !prefix_cons.
  by destruct (ascii_dec "`" c) as [<- |].
Qed.

Lemma strip_fences_head s :
  String.prefix "`" s = false → String.prefix "`" (strip_fences 0 s) = false.
Proof.
  destruct s as [| c s]; [done |]. rewrite prefix_cons.
  destruct (ascii_dec "`" c) as [<- | Hc]; [by rewrite prefix_nil |].
  intros _. rewrite strip_fences_keep by done. rewrite prefix_cons.
  by destruct (ascii_dec "`" c).
Qed.

Lemma strip_fences_clean s k :
  includes "```" (strip_fences k s) = false
  ∧ (String.prefix "``" s = false →
     String.prefix "``" (strip_fences 0 s) = false).
Proof.
  revert k. induction s as [| c s IH]; intros k; [done |].
  assert (includes "```" (strip_fences 0 (String c s)) = false
          ∧ (String.prefix "``" (String c s) = false →
             String.prefix "``" (strip_fences 0 (String c s)) = false)) as H0.
  { rewrite strip_fences_cons.
    destruct (String.prefix "```json" (String c s)) eqn:Hj.
    { split; [apply IH |]. intros Hp. rewrite !prefix_cons in Hj, Hp.
      destruct (ascii_dec "`" c); [| done]. destruct s as [| c1 s]; [done |].
      rewrite !prefix_cons in Hj, Hp. destruct (ascii_dec "`" c1); [| done].
      by rewrite prefix_nil in Hp. }
    destruct (String.prefix "```" (String c s)) eqn:Hf.
    { split; [apply IH |]. intros Hp. rewrite !prefix_cons in Hf, Hp.
      destruct (ascii_dec "`" c); [| done]. destruct s as [| c1 s]; [done |].
      rewrite !prefix_cons in Hf, Hp. destruct (ascii_dec "`" c1); [| done].
      by rewrite prefix_nil in Hp. }
    destruct (IH 0) as [IHa IHb]. rewrite prefix_cons in Hf.
    split.
    - rewrite includes_unfold, prefix_cons.
      destruct (ascii_dec "`" c) as [<- | Hc]; [| exact IHa].
      by rewrite (IHb Hf).
    - rewrite !prefix_cons. destruct (ascii_dec "`" c) as [<- | Hc]; [| done].
      apply strip_fences_head. }
  destruct k as [| k]; [exact H0 |]. split; [apply IH | apply H0].
Qed.

Lemma trimStart_suffix s : ∃ pre, s = (pre ++ trimStart s)%string.
Proof.
  induction s as [| c s [pre IH]]; [by exists EmptyString |].
  cbn [trimStart]. destruct (is_white_space c); [| by exists EmptyString].
  exists (String c pre). by rewrite append_cons, <- IH.
Qed.

Lemma trimEnd_prefix s : ∃ post, s = (trimEnd s ++ post)%string.
Proof.
  induction s as [| c s [post IH]]; [by exists EmptyString |].
  cbn [trimEnd]. destruct (trimEnd s) as [| c' t] eqn:Ht.
  - destruct (is_white_space c).
    + by exists (String c s).
    + exists post. rewrite append_cons, <- IH. done.
  - exists post. by rewrite append_cons, <- IH.
Qed.

(** What [trim] returns occurs in its argument. *)
Lemma includes_trim sub s :
  includes sub (trim s) = true → includes sub s = true.
Proof.
  rewrite !includes_spec. intros (p & q & Hpq).
  destruct (trimStart_suffix s) as [pre Hpre].
  destruct (trimEnd_prefix (trimStart s)) as [post Hpost].
  exists (pre ++ p)%string, (q ++ post)%string.
  rewrite Hpre, Hpost. fold (trim s). rewrite Hpq.
  by rewrite !append_assoc.
Qed.

(** A string without backquote passes unchanged, also before a closing
    fence. *)
Lemma strip_fences_plain body t :
  includes "`" body = false →
  strip_fences 0 (body ++ t) = (body ++ strip_fences 0 t)%string.
Proof.
  induction body as [| c body IH]; [done |].
  rewrite includes_unfold, prefix_cons.
  destruct (ascii_dec "`" c) as [<- | Hc]; [by rewrite prefix_nil |].
  intros Hbody. rewrite !append_cons, strip_fences_keep by done.
  by rewrite IH.
Qed.

Lemma append_nil_r s : (s ++ "")%string = s.
Proof. induction s as [| c s IH]; [done |]. by rewrite append_cons, IH. Qed.

(** An opening fence is dropped, with the word "json" if it follows. *)
Lemma strip_fences_json t :
  strip_fences 0 ("```json" ++ t) = strip_fences 0 t.
Proof.
  rewrite !append_cons. change ("" ++ t)%string with t.
  rewrite strip_fences_cons, !prefix_cons. cbn. by rewrite prefix_nil.
Qed.

Lemma strip_fences_fence t :
  String.prefix "json" t = false →
  strip_fences 0 ("```" ++ t) = strip_fences 0 t.
Proof.
  intros Ht. rewrite !append_cons. change ("" ++ t)%string with t.
  rewrite strip_fences_cons, !prefix_cons. cbn. by rewrite Ht, prefix_nil.
Qed.

End cleanText.

(** However the answer is written, the text handed to [JSON.parse] holds
    no code fence. *)
Theorem cleanText_no_fence (text : string) :
  includes "```" (cleanText text) = false.
Proof.
  unfold cleanText.
  destruct (includes "```" (trim (strip_fences 0 text))) eqn:H; [| done].
  apply includes_trim in H.
  by rewrite (proj1 (strip_fences_clean text 0)) in H.
Qed.

(** An answer without backquote is only trimmed; wrapped between
    [```json] and [```] it is unwrapped and trimmed; wrapped between two
    plain fences it is too, unless it starts with "json". *)
Theorem cleanText_unwraps (body : string) :
  includes "`" body = false →
  cleanText body = trim body
  ∧ cleanText ("```json" ++ body ++ "```") = trim body
  ∧ (String.prefix "json" body = false →
     cleanText ("```" ++ body ++ "```") = trim body).
Proof.
  intros Hbody. unfold cleanText.
  assert (strip_fences 0 (body ++ "```") = body) as Hclose.
  { rewrite strip_fences_plain by done. by rewrite append_nil_r. }
  split; [| split].
  - f_equal. rewrite <- (append_nil_r body) at 1.
    rewrite strip_fences_plain by done. by rewrite append_nil_r.
  - by rewrite strip_fences_json, Hclose.
  - intros Hjson. rewrite strip_fences_fence, Hclose; [done |].
    destruct body as [| c body]; [reflexivity |].
    rewrite append_cons, prefix_cons. rewrite prefix_cons in Hjson.
    destruct (ascii_dec "j" c); [| done].
    destruct body as [| c1 body]; [reflexivity |].
    rewrite append_cons, prefix_cons. rewrite prefix_cons in Hjson.
    destruct (ascii_dec "s" c1); [| done].
    destruct body as [| c2 body]; [reflexivity |].
    rewrite append_cons, prefix_cons. rewrite prefix_cons in Hjson.
    destruct (ascii_dec "o" c2); [| done].
    destruct body as [| c3 body]; [reflexivity |].
    rewrite append_cons, prefix_cons. rewrite prefix_cons in Hjson.
    destruct (ascii_dec "n" c3); [| done].
    by rewrite prefix_nil in Hjson.
Qed.

Lemma cleanText_unwraps_witness :
  cleanText "{}" = trim "{}"
  ∧ cleanText ("```json" ++ "{}" ++ "```") = trim "{}"
  ∧ (String.prefix "json" "{}" = false →
     cleanText ("```" ++ "{}" ++ "```") = trim "{}").
Proof.
  apply (cleanText_unwraps "{}"). reflexivity.
Defined.

(* ===================================================================== *)
(** ** Facts about the upload view                                        *)
(* ===================================================================== *)

Section upload.
Implicit Types (u : UploadState) (s : string).

Lemma includes_char_cons (a c : ascii) s :
  includes (String a EmptyString) (String c s) = false
  ↔ a ≠ c ∧ includes (String a EmptyString) s = false.
Proof.
  rewrite includes_unfold, prefix_cons.
  destruct (ascii_dec a c) as [-> | Hne]; [rewrite prefix_nil | ]; naive_solver.
Qed.

Lemma split_plain sep s :
  includes (String sep EmptyString) s = false → split sep s = [s].
Proof.
  induction s as [| c s IH]; [done |].
  intros [Hne Hs]%includes_char_cons. cbn [split].
  rewrite (proj2 (Ascii.eqb_neq c sep)) by done. by rewrite IH.
Qed.

Lemma split_first sep header rest :
  includes (String sep EmptyString) header = false →
  split sep (header ++ String sep rest) = header :: split sep rest.
Proof.
  induction header as [| c header IH].
  - intros _. change ("" ++ String sep rest)%string with (String sep rest).
    cbn [split]. by rewrite Ascii.eqb_refl.
  - intros [Hne Hs]%includes_char_cons. rewrite append_cons. cbn [split].
    rewrite (proj2 (Ascii.eqb_neq c sep)) by done. by rewrite IH.
Qed.

End upload.

(** The payload of a data URL: of [header,payload], neither part holding
    a comma, [runAnalysis] sends [payload] together with the selected
    dataset; of an image text without comma it sends [undefined]. *)
Theorem runAnalysis_payload (u : UploadState) (header payload : string) :
  includes "," header = false →
  includes "," payload = false →
  (uploadedImage u = Some (header ++ "," ++ payload)%string →
   (runAnalysis_start u).2
   = Some {| request_data := Some payload;
             request_dataset := selectedDataset u |})
  ∧ (uploadedImage u = Some payload → payload ≠ "" →
     (runAnalysis_start u).2
     = Some {| request_data := None; request_dataset := selectedDataset u |}).
Proof.
  intros Hh Hp. unfold runAnalysis_start, base64Data. split.
  - intros ->.
    assert (String.eqb (header ++ "," ++ payload) "" = false) as ->.
    { apply String.eqb_neq. by destruct header. }
    cbn [snd]. change ("," ++ payload)%string with (String "," payload).
    by rewrite split_first, split_plain.
  - intros -> Hne. rewrite (proj2 (String.eqb_neq payload "")) by done.
    cbn [snd]. by rewrite split_plain.
Qed.

Lemma runAnalysis_payload_witness :
  (runAnalysis_start
     (handleFileUpload (Some (Some "data:image/png;base64,iVBORw0KGgo=")) initial_upload)).2
  = Some {| request_data := Some "iVBORw0KGgo=";
            request_dataset := geminiService.DatasetCotton |}.
Proof.
  apply (proj1 (runAnalysis_payload
                  (handleFileUpload (Some (Some "data:image/png;base64,iVBORw0KGgo="))
                     initial_upload)
                  "data:image/png;base64" "iVBORw0KGgo=" eq_refl eq_refl)).
  reflexivity.
Defined.

Lemma runAnalysis_loaded out (u : UploadState) image :
  uploadedImage u = Some image → image ≠ "" →
  ∃ result,
    geminiService.analyzeWeedImage out (selectedDataset u) = Normal result
    ∧ runAnalysis out u =
        {| selectedDataset := selectedDataset u;
           uploadedImage := Some image;
           isAnalyzing := false;
           analysisResult := Some result;
           alerts := alerts u |}.
Proof.
  intros Himg Hne.
  destruct (analyzeWeedImage_total out (selectedDataset u)) as [result Hres].
  exists result. split; [done |].
  unfold runAnalysis, runAnalysis_start. rewrite Himg.
  rewrite (proj2 (String.eqb_neq image "")) by done.
  cbn [request_dataset]. by rewrite Hres.
Qed.

(** With an image loaded, [runAnalysis] always ends with [isAnalyzing]
    false and an analysis result set, and never shows its alert, however
    the remote call went; without an image it does nothing. *)
Theorem runAnalysis_result
    (out : geminiService.GeminiOutcome) (u : UploadState) :
  (∀ image, uploadedImage u = Some image → image ≠ "" →
     ∃ result,
       geminiService.analyzeWeedImage out (selectedDataset u) = Normal result
       ∧ runAnalysis out u =
           {| selectedDataset := selectedDataset u;
              uploadedImage := Some image;
              isAnalyzing := false;
              analysisResult := Some result;
              alerts := alerts u |})
  ∧ (uploadedImage u = None ∨ uploadedImage u = Some "" → runAnalysis out u = u).
Proof.
  split.
  - intros image. apply runAnalysis_loaded.
  - unfold runAnalysis, runAnalysis_start. by intros [-> | ->].
Qed.

Lemma runAnalysis_result_witness :
  ∃ result,
    geminiService.analyzeWeedImage (geminiService.CallRejected Sample.offline)
      geminiService.DatasetCotton = Normal result
    ∧ runAnalysis (geminiService.CallRejected Sample.offline)
        (handleFileUpload (Some (Some "data:image/png;base64,iVBORw0KGgo="))
           initial_upload)
      = {| selectedDataset := geminiService.DatasetCotton;
           uploadedImage := Some "data:image/png;base64,iVBORw0KGgo=";
           isAnalyzing := false;
           analysisResult := Some result;
           alerts := [] |}.
Proof.
  apply (proj1 (runAnalysis_result (geminiService.CallRejected Sample.offline)
                  (handleFileUpload (Some (Some "data:image/png;base64,iVBORw0KGgo="))
                     initial_upload))
           "data:image/png;base64,iVBORw0KGgo=" eq_refl).
  discriminate.
Defined.

(** The headline after an analysis of a loaded image: a failed call reads
    "Field is Clean"; a parsed answer with an array of detections reads
    their number, or "Field is Clean" when there is none; a parsed answer
    without [detections] makes the headline throw. *)
Theorem upload_statusLine
    (out : geminiService.GeminiOutcome) (u : UploadState) (image : string) :
  uploadedImage u = Some image → image ≠ "" →
  ∃ result,
    analysisResult (runAnalysis out u) = Some result
    ∧ (∀ err, geminiService.analyzeWeedImage_try out = Throw err →
              statusLine result = Normal FieldIsClean)
    ∧ (∀ data rs,
         out = geminiService.ParseReturns (geminiService.ParsedObject data) →
         geminiService.raw_detections data = geminiService.DetArray rs →
         statusLine result
         = Normal (match rs with
                   | [] => FieldIsClean
                   | _ :: _ => WeedsIdentified (length rs)
                   end))
    ∧ (∀ data,
         out = geminiService.ParseReturns (geminiService.ParsedObject data) →
         geminiService.raw_detections data = geminiService.DetFalsy →
         ∃ err, statusLine result = Throw err).
Proof.
  intros Himg Hne.
  destruct (runAnalysis_loaded out u image Himg Hne) as (result & Hres & ->).
  exists result. split; [done |]. split; [| split].
  - intros err Herr. rewrite (analyzeWeedImage_caught out _ err Herr) in Hres.
    injection Hres as <-. by destruct (geminiService.is_rate_limit err).
  - intros data rs -> Hrs. unfold geminiService.analyzeWeedImage in Hres.
    cbn in Hres. rewrite Hrs in Hres. injection Hres as <-.
    unfold statusLine. cbn [detections]. rewrite length_map. by destruct rs.
  - intros data -> Hrs. unfold geminiService.analyzeWeedImage in Hres.
    cbn in Hres. rewrite Hrs in Hres. injection Hres as <-.
    unfold statusLine. cbn [detections]. eauto.
Qed.

Lemma upload_statusLine_witness :
  ∃ result,
    analysisResult
      (runAnalysis (geminiService.CallRejected Sample.rate_limited)
         (handleFileUpload (Some (Some "data:image/png;base64,iVBORw0KGgo="))
            initial_upload))
    = Some result
    ∧ statusLine result = Normal FieldIsClean.
Proof.
  destruct (upload_statusLine (geminiService.CallRejected Sample.rate_limited)
              (handleFileUpload (Some (Some "data:image/png;base64,iVBORw0KGgo="))
                 initial_upload)
              "data:image/png;base64,iVBORw0KGgo=" eq_refl ltac:(discriminate))
    as (result & Hres & Hfail & _).
  exists result. split; [exact Hres |].
  exact (Hfail Sample.rate_limited eq_refl).
Defined.

(** The upload overlay draws a box for every detection that has a box,
    whatever its length; where the live mapping gives a box the two agree
    on the geometry; a box of fewer than four numbers is drawn by the
    overlay and dropped by the live mapping, and an empty box is drawn
    with [NaN] on every side. *)
Theorem overlayBox_vs_mapDetection (det : DetectionResult) (now : Z) (i : nat) :
  (is_Some (overlayBox det) ↔ is_Some (bbox det))
  ∧ (∀ r, mapDetection now i det = Some r →
          overlayBox det
          = Some {| overlay_top := LiveDetection.y r;
                    overlay_left := LiveDetection.x r;
                    overlay_width := LiveDetection.w r;
                    overlay_height := LiveDetection.h r |})
  ∧ (∀ b, bbox det = Some b → length b < 4 →
          is_Some (overlayBox det) ∧ mapDetection now i det = None)
  ∧ (bbox det = Some [] →
     overlayBox det
     = Some {| overlay_top := nan; overlay_left := nan;
               overlay_width := nan; overlay_height := nan |}).
Proof.
  unfold overlayBox, mapDetection. destruct (bbox det) as [b |].
  - split; [by split; eauto |]. split; [| split].
    + intros r. destruct (length b <? 4); [done |]. by intros [= <-].
    + intros b' [= <-] Hlen. split; [eauto |].
      by apply Nat.ltb_lt in Hlen as ->.
    + by intros [= ->].
  - split; [by split; intros [? ?] |]. by repeat split.
Qed.

Lemma overlayBox_vs_mapDetection_witness :
  overlayBox Sample.boxed
  = Some {| overlay_top := 10%float; overlay_left := 20%float;
            overlay_width := 40%float;
            overlay_height := 30.000000000000004%float |}.
Proof.
  exact (proj1 (proj2 (overlayBox_vs_mapDetection Sample.boxed 1000 0))
           {| LiveDetection.id := 1000;
              LiveDetection.x := 20%float;
              LiveDetection.y := 10%float;
              LiveDetection.w := 40%float;
              LiveDetection.h := 30.000000000000004%float;
              LiveDetection.label := "Fat Hen";
              LiveDetection.conf := 0.9%float |}
           eq_refl).
Defined.

(* ===================================================================== *)
(** ** Facts about colours and icons                                      *)
(* ===================================================================== *)

Section colours.
Local Open Scope Z_scope.

Lemma ToInt32_range n : - 2 ^ 31 ≤ ToInt32 n < 2 ^ 31.
Proof.
  unfold ToInt32.
  pose proof (Z.mod_pos_bound (n + 2 ^ 31) (2 ^ 32) ltac:(lia)). lia.
Qed.

Lemma hash_step_bound hash c :
  0 ≤ c < 65536 → Z.abs (hash_step hash c) ≤ Z.abs hash + 2 ^ 32.
Proof.
  intros Hc. unfold hash_step, shl5.
  pose proof (ToInt32_range (Z.shiftl (ToInt32 hash) 5)). lia.
Qed.

Lemma weedHash_bound codes hash :
  Forall (λ c, 0 ≤ c < 65536) codes →
  Z.abs (fold_left hash_step codes hash)
  ≤ Z.abs hash + Z.of_nat (length codes) * 2 ^ 32.
Proof.
  intros Hcodes. revert hash.
  induction Hcodes as [| c codes Hc _ IH]; intros hash; cbn [fold_left length].
  - lia.
  - pose proof (IH (hash_step hash c)).
    pose proof (hash_step_bound hash c Hc). lia.
Qed.

End colours.

(** For a label of at most 2^21 code units the hash stays within the
    integers that a JavaScript number holds exactly (at most 2^53 in
    magnitude), and the label gets one of the six colours, never
    [undefined]. *)
Theorem getWeedColor_defined (codes : list Z) :
  Forall (λ c, 0 ≤ c < 65536)%Z codes →
  (Z.of_nat (length codes) ≤ 2 ^ 21)%Z →
  (Z.abs (weedHash codes) ≤ 2 ^ 53)%Z
  ∧ ∃ color, getWeedColor_codes codes = Some color ∧ color ∈ colors.
Proof.
  intros Hcodes Hlen. split.
  - unfold weedHash.
    pose proof (weedHash_bound codes 0 Hcodes) as Hb.
    change (2 ^ 53)%Z with (2 ^ 21 * 2 ^ 32)%Z. lia.
  - unfold getWeedColor_codes.
    destruct (lookup_lt_is_Some_2 colors
                (Z.to_nat (Z.abs (weedHash codes) mod Z.of_nat (length colors))))
      as [color Hcolor].
    { pose proof (Z.mod_pos_bound (Z.abs (weedHash codes))
                    (Z.of_nat (length colors)) ltac:(cbn; lia)) as Hb.
      cbn in *. lia. }
    exists color. split; [exact Hcolor |]. by eapply list_elem_of_lookup_2.
Qed.

Lemma getWeedColor_defined_witness :
  (Z.abs (weedHash (charCodes "Fat Hen")) ≤ 2 ^ 53)%Z
  ∧ ∃ color, getWeedColor "Fat Hen" = Some color ∧ color ∈ colors.
Proof.
  apply (getWeedColor_defined (charCodes "Fat Hen")).
  - repeat constructor; cbn; lia.
  - cbn. lia.
Defined.

(** The camera preference and the icon agree: a device that [getDevices]
    counts as a mobile camera is shown with the smartphone icon; the icon
    is the smartphone exactly when the lower-cased label contains "back",
    "virtual", "phone" or "droid". *)
Theorem getDeviceIcon_mobileCam (d : MediaDeviceInfo.t) :
  (is_mobileCam d = true → getDeviceIcon (MediaDeviceInfo.label d) = Smartphone)
  ∧ (getDeviceIcon (MediaDeviceInfo.label d) = Smartphone
     ↔ ∃ kw pre post,
         kw ∈ ["back"; "virtual"; "phone"; "droid"]
         ∧ toLowerCase (MediaDeviceInfo.label d) = (pre ++ kw ++ post)%string).
Proof.
  split.
  - intros H. unfold is_mobileCam in H. unfold getDeviceIcon. cbn zeta.
    by rewrite H.
  - unfold getDeviceIcon. cbn zeta.
    set (l := toLowerCase (MediaDeviceInfo.label d)).
    transitivity (includes "back" l || includes "virtual" l
                  || includes "phone" l || includes "droid" l = true).
    { by destruct (_ || _ || _ || _). }
    rewrite !orb_true_iff, !includes_spec. split.
    + intros [[[H | H] | H] | H]; destruct H as (pre & post & E);
        [exists "back" | exists "virtual" | exists "phone" | exists "droid"];
        exists pre, post; (split; [set_solver | exact E]).
    + intros (kw & pre & post & Hkw & E).
      assert (kw = "back" ∨ kw = "virtual" ∨ kw = "phone" ∨ kw = "droid")
        as [-> | [-> | [-> | ->]]] by set_solver; eauto 10.
Qed.

Lemma getDeviceIcon_mobileCam_witness :
  getDeviceIcon (MediaDeviceInfo.label Sample.virtualCam) = Smartphone.
Proof.
  exact (proj1 (getDeviceIcon_mobileCam Sample.virtualCam) eq_refl).
Defined.

(* ===================================================================== *)
(** ** Further facts about device selection                               *)
(* ===================================================================== *)

Section refresh.
Implicit Types (l : list MediaDeviceInfo.t) (d : MediaDeviceInfo.t) (s : AppState).

Lemma find_Some {A} (p : A → bool) (l : list A) (a : A) :
  find p l = Some a → p a = true ∧ a ∈ l.
Proof.
  induction l as [| b l IH]; [done |]. cbn [find].
  destruct (p b) eqn:Hb.
  - intros [= ->]. split; [done | by left].
  - intros H. destruct (IH H). split; [done | by right].
Qed.

Lemma find_is_Some {A} (p : A → bool) (l : list A) (a : A) :
  a ∈ l → p a = true → is_Some (find p l).
Proof.
  induction 1 as [a l | a b l _ IH]; intros Ha; cbn [find].
  - rewrite Ha. eauto.
  - destruct (p b); eauto.
Qed.

(** A refresh replaces the list and perhaps the selection, nothing else. *)
Lemma getDevices_shape devices s :
  ∃ sel, getDevices (Some devices) s =
    {| stream := stream s;
       videoDevices :=
         List.filter (λ d, String.eqb (MediaDeviceInfo.kind d) "videoinput") devices;
       selectedDeviceId := sel;
       liveDetections := liveDetections s;
       isLiveInferencing := isLiveInferencing s;
       detectedWeedTypes := detectedWeedTypes s;
       disabledWeedTypes := disabledWeedTypes s |}.
Proof.
  unfold getDevices, getDevices_ok.
  repeat match goal with
         | |- context [if ?b then _ else _] => destruct b
         | |- context [match find ?p ?l with _ => _ end] => destruct (find p l)
         end; eexists; reflexivity.
Qed.

Lemma getDevices_selected devices s :
  let videoInputs :=
    List.filter (λ d, String.eqb (MediaDeviceInfo.kind d) "videoinput") devices in
  selectedDeviceId s ≠ "" →
  selectedDeviceId (getDevices (Some devices) s) =
    if bool_decide (selectedDeviceId s ∈ MediaDeviceInfo.deviceId <$> videoInputs)
    then selectedDeviceId s
    else first_deviceId videoInputs.
Proof.
  intros videoInputs Hsel. unfold getDevices, getDevices_ok. fold videoInputs.
  rewrite (proj2 (String.eqb_neq (selectedDeviceId s) "")) by done.
  cbn [negb andb].
  destruct (find _ videoInputs) as [d |] eqn:Hfind.
  - apply find_Some in Hfind as [Hd%String.eqb_eq Hin].
    rewrite (bool_decide_eq_true_2 (is_Some (Some d))) by eauto. cbn [negb].
    rewrite bool_decide_eq_true_2; [done |].
    apply list_elem_of_fmap. eauto.
  - rewrite (bool_decide_eq_false_2 (is_Some None)) by (by intros [? ?]).
    cbn [negb].
    rewrite bool_decide_eq_false_2; [done |].
    intros (d & Hd & Hin)%list_elem_of_fmap.
    destruct (find_is_Some
                (λ d, String.eqb (MediaDeviceInfo.deviceId d) (selectedDeviceId s))
                videoInputs d Hin) as [d' Hd'].
    { by apply String.eqb_eq. }
    congruence.
Qed.

End refresh.

Lemma getDevices_valid
    (s : AppState) (devices : list MediaDeviceInfo.t) :
  let videoInputs :=
    List.filter (λ d, String.eqb (MediaDeviceInfo.kind d) "videoinput") devices in
  let s' := getDevices (Some devices) s in
  (videoInputs ≠ [] →
   selectedDeviceId s' ∈ MediaDeviceInfo.deviceId <$> videoInputs)
  ∧ (videoInputs = [] → selectedDeviceId s' = "").
Proof.
  intros videoInputs s'. subst s'.
  assert (videoInputs ≠ [] →
          first_deviceId videoInputs ∈ MediaDeviceInfo.deviceId <$> videoInputs)
    as Hfirst.
  { destruct videoInputs as [| d l]; [done |]. intros _. by left. }
  destruct (decide (selectedDeviceId s = "")) as [Hsel | Hsel].
  - split.
    + intros Hne. rewrite (getDevices_unselected devices s Hsel Hne).
      fold videoInputs. destruct (find is_mobileCam videoInputs) as [d |] eqn:Hd.
      * apply find_Some in Hd as [_ Hin]. apply list_elem_of_fmap. eauto.
      * by apply Hfirst.
    + intros Hnil. unfold getDevices, getDevices_ok. fold videoInputs.
      by rewrite Hsel, Hnil.
  - rewrite (getDevices_selected devices s Hsel). fold videoInputs.
    case_bool_decide as Hin.
    + split; [done |]. intros Hnil. rewrite Hnil in Hin.
      by apply elem_of_nil in Hin.
    + split; [exact Hfirst |]. by intros ->.
Qed.




(** When every listed device has an id, refreshing twice with the same
    enumeration gives what refreshing once gives. *)
Theorem getDevices_idempotent
    (s : AppState) (devices : list MediaDeviceInfo.t) :
  Forall (λ d, MediaDeviceInfo.deviceId d ≠ "")
    (List.filter (λ d, String.eqb (MediaDeviceInfo.kind d) "videoinput") devices) →
  getDevices (Some devices) (getDevices (Some devices) s)
  = getDevices (Some devices) s.
Proof.
  intros Hids.
  destruct (getDevices_valid s devices) as (Hlisted & Hnone).
  destruct (getDevices_shape devices s) as [sel Hs1]. rewrite Hs1 in *.
  cbn [selectedDeviceId] in *. clear Hs1.
  set (videoInputs :=
         List.filter (λ d, String.eqb (MediaDeviceInfo.kind d) "videoinput") devices)
    in *.
  unfold getDevices, getDevices_ok. fold videoInputs. cbn [selectedDeviceId].
  destruct videoInputs as [| d0 l] eqn:E.
  - by rewrite Hnone.
  - specialize (Hlisted ltac:(done)).
    apply list_elem_of_fmap in Hlisted as (d & -> & Hd).
    rewrite Forall_forall in Hids. pose proof (Hids d Hd) as Hne.
    rewrite (proj2 (String.eqb_neq _ "") Hne). cbn [negb andb].
    destruct (find_is_Some
                (λ d', String.eqb (MediaDeviceInfo.deviceId d')
                         (MediaDeviceInfo.deviceId d)) (d0 :: l) d Hd)
      as [d' ->]; [by apply String.eqb_eq | done].
Qed.

Lemma getDevices_idempotent_witness :
  getDevices (Some [Sample.webCam; Sample.backCam])
    (getDevices (Some [Sample.webCam; Sample.backCam]) initial_app)
  = getDevices (Some [Sample.webCam; Sample.backCam]) initial_app.
Proof.
  apply (getDevices_idempotent initial_app [Sample.webCam; Sample.backCam]).
  repeat constructor; discriminate.
Defined.

(* ===================================================================== *)
(** ** Further facts about the visibility filter                          *)
(* ===================================================================== *)

Lemma toggleWeedType_flip (type : string) (s : AppState) :
  (type ∈ disabledWeedTypes (toggleWeedType type s)
   ↔ type ∉ disabledWeedTypes s)
  ∧ (∀ other, other ≠ type →
       (other ∈ disabledWeedTypes (toggleWeedType type s)
        ↔ other ∈ disabledWeedTypes s)).
Proof.
  unfold toggleWeedType. cbn [disabledWeedTypes setDisabledWeedTypes].
  destruct (decide (type ∈ disabledWeedTypes s)); set_solver.
Qed.

(** Toggling a category twice restores the hidden set; toggling once
    flips the membership of that category and of no other. *)
Theorem toggleWeedType_involutive (type : string) (s : AppState) :
  disabledWeedTypes (toggleWeedType type (toggleWeedType type s))
  = disabledWeedTypes s
  ∧ (type ∈ disabledWeedTypes (toggleWeedType type s)
     ↔ type ∉ disabledWeedTypes s)
  ∧ (∀ other, other ≠ type →
       (other ∈ disabledWeedTypes (toggleWeedType type s)
        ↔ other ∈ disabledWeedTypes s)).
Proof.
  unfold toggleWeedType. cbn [disabledWeedTypes setDisabledWeedTypes].
  destruct (decide (type ∈ disabledWeedTypes s)) as [Hin | Hnin].
  - rewrite decide_False by set_solver. split; [| set_solver].
    apply set_eq. intros x. destruct (decide (x = type)); set_solver.
  - rewrite decide_True by set_solver. set_solver.
Qed.

(** After a toggle, the boxes drawn are those of the list whose category
    is visible: for the toggled category that is now the opposite of
    before, for every other category it is as before. *)
Theorem toggleWeedType_visibleRegions
    (type : string) (s : AppState) (L : list LiveDetection.t)
    (box : LiveDetection.t) :
  box ∈ visibleRegions (disabledWeedTypes (toggleWeedType type s)) L
  ↔ box ∈ L
    ∧ (if decide (LiveDetection.label box = type)
       then type ∈ disabledWeedTypes s
       else LiveDetection.label box ∉ disabledWeedTypes s).
Proof.
  rewrite visibleRegions_elem_of.
  destruct (toggleWeedType_flip type s) as [Hsame Hother].
  case_decide as Hl.
  - rewrite Hl, Hsame. destruct (decide (type ∈ disabledWeedTypes s)); tauto.
  - by rewrite (Hother _ Hl).
Qed.

(* ===================================================================== *)
(** ** Further facts about sessions                                       *)
(* ===================================================================== *)

Section more_sessions.
Implicit Types (w : World) (eff : Effect) (ev : Event).

(** *** The handlers and their parts *)

(** A handler during which nothing else happens is its request followed
    at once by the settling of that request. *)
Lemma toggleCamera_parts media w :
  step w (ToggleCamera media)
  = match stream (app w) with
    | Some _ => step w CameraRequested
    | None => run w [CameraRequested; MediaSettled (requested w) media]
    end.
Proof. cbn. unfold toggleCamera. by destruct (stream (app w)). Qed.

Lemma handleDeviceChange_parts newDeviceId media w :
  step w (HandleDeviceChange newDeviceId media)
  = match stream (app w) with
    | Some _ => run w [DeviceChangeRequested newDeviceId;
                       MediaSettled (requested w) media]
    | None => step w (DeviceChangeRequested newDeviceId)
    end.
Proof. cbn. unfold handleDeviceChange. by destruct (stream (app w)). Qed.

(** The request a handler makes is awaited under the number it got. *)
Lemma request_media_lookup k w :
  requests (request_media k w) !! requested w = Some k.
Proof. cbn. by rewrite lookup_insert_eq. Qed.

(** A start whose request is granted at once. *)
Lemma toggleCamera_start newStream w :
  stream (app w) = None →
  ∃ w0, toggleCamera (Some newStream) w
        = commit None (with_app (setStream (Some newStream)) w0)
        ∧ app w0 = app w ∧ effects w0 = effects w ∧ pending w0 = pending w
        ∧ dispatched w0 = dispatched w.
Proof.
  intros Hs. unfold toggleCamera, toggleCamera_begin. rewrite Hs.
  unfold media_settled. rewrite request_media_lookup.
  cbn [app request_media]. rewrite Hs. by eexists.
Qed.


Lemma dispatched_toggleCamera_begin w :
  dispatched (toggleCamera_begin w) = dispatched w.
Proof.
  unfold toggleCamera_begin. destruct (stream (app w)); [| done].
  by rewrite dispatched_commit.
Qed.

(** What an unmounted (or unknown) effect awaited only leaves the set of
    awaited calls. *)
Lemma resolve_timed_unmounted c out clock w e :
  pending w !! c = Some e →
  default false (isMounted <$> effects w !! e) = false →
  (resolve_timed c out clock w).1 = with_pending (delete c (pending w)) w.
Proof.
  intros Hc Hm. unfold resolve_timed. rewrite Hc.
  unfold captureFrameAndAnalyze_resume. cbn [effects with_pending].
  rewrite Hm.
  assert (finally_clear e (with_pending (delete c (pending w)) w)
          = with_pending (delete c (pending w)) w) as Hfin.
  { unfold finally_clear. cbn [effects with_pending].
    destruct (effects w !! e) as [eff |]; [| done].
    cbn in Hm. by rewrite Hm. }
  destruct (geminiService.analyzeWeedImage out geminiService.DatasetBeet)
    as [result | err]; cbn [fst snd]; [| exact Hfin].
  destruct (detections result); exact Hfin.
Qed.

(** *** Displayed boxes and recorded categories *)

Lemma labelled_frame w w' :
  liveDetections (app w') = liveDetections (app w) →
  detectedWeedTypes (app w') = detectedWeedTypes (app w) →
  labelled w → labelled w'.
Proof. intros El Ek Hw. unfold labelled. rewrite El, Ek. exact Hw. Qed.

Lemma labelled_toggleCamera_begin w :
  labelled w → labelled (toggleCamera_begin w).
Proof.
  intros Hw. unfold toggleCamera_begin. destruct (stream (app w)); [| exact Hw].
  unfold labelled. rewrite app_commit. cbn. intros box Hbox.
  by apply elem_of_nil in Hbox.
Qed.

Lemma labelled_media_settled r media w :
  labelled w → labelled (media_settled r media w).
Proof.
  destruct (media_settled_frame r media w) as (_ & _ & El & Ek & _).
  by apply labelled_frame.
Qed.

Lemma labelled_handleDeviceChange_begin newDeviceId w :
  labelled w → labelled (handleDeviceChange_begin newDeviceId w).
Proof.
  destruct (handleDeviceChange_begin_frame newDeviceId w)
    as (_ & _ & _ & _ & El & Ek & _).
  by apply labelled_frame.
Qed.

Lemma labelled_resolve_timed c out clock w :
  labelled w → labelled (resolve_timed c out clock w).1.
Proof.
  intros Hw. unfold labelled.
  destruct (pending w !! c) as [e |] eqn:Hc;
    [| unfold resolve_timed; rewrite Hc; exact Hw].
  destruct (resolve_timed_pending c out clock w e Hc)
    as (result & _ & _ & -> & -> & _).
  destruct (default false (isMounted <$> effects w !! e)); [| exact Hw].
  destruct (detections result) as [ds |]; [| exact Hw].
  intros box Hbox. apply elem_of_union_r, elem_of_list_to_set.
  assert (LiveDetection.label box ∈ LiveDetection.label <$> mappedDetections clock ds)
    as Hl by (apply list_elem_of_fmap; eauto).
  rewrite mappedDetections_labels in Hl.
  apply list_elem_of_fmap in Hl as (d & -> & Hd).
  apply list_elem_of_fmap. exists d. split; [done |].
  apply list_elem_of_In. apply list_elem_of_In, filter_In in Hd. tauto.
Qed.

Lemma labelled_step w ev : labelled w → labelled (step w ev).
Proof.
  intros Hw.
  destruct ev as [media | newId media | enum | e env | c out now | type
                 | | newId | r media | c out clock]; cbn [step].
  - unfold toggleCamera. destruct (stream (app w)).
    + by apply labelled_toggleCamera_begin.
    + by apply labelled_media_settled, labelled_toggleCamera_begin.
  - unfold handleDeviceChange. destruct (stream (app w)).
    + by apply labelled_media_settled, labelled_handleDeviceChange_begin.
    + by apply labelled_handleDeviceChange_begin.
  - revert Hw. apply labelled_frame; apply getDevices_frame.
  - revert Hw. apply labelled_frame; apply tick_frame.
  - by apply labelled_resolve_timed.
  - exact Hw.
  - by apply labelled_toggleCamera_begin.
  - by apply labelled_handleDeviceChange_begin.
  - by apply labelled_media_settled.
  - by apply labelled_resolve_timed.
Qed.

Lemma labelled_run evs w : labelled w → labelled (run w evs).
Proof.
  revert w. induction evs as [| ev evs IH]; intros w Hw; [done |].
  cbn [run fold_left]. apply IH. by apply labelled_step.
Qed.

(** *** Commits *)


(** The effect a commit creates. *)
Lemma commit_current prev w :
  stream (app w) ≠ prev →
  effects (commit prev w) !! length (effects w) = Some (run_effect (app w)).
Proof.
  intros Hs. unfold commit. rewrite decide_False by done.
  cbn [effects with_effects].
  rewrite lookup_app_r by (rewrite length_alter; lia).
  by rewrite length_alter, Nat.sub_diag.
Qed.

(** *** The in-flight flag left set *)

Lemma jammed_frame w w' :
  isLiveInferencing (app w') = isLiveInferencing (app w) →
  effects w' = effects w →
  (∀ c e, pending w' !! c = Some e → pending w !! c = Some e) →
  jammed w → jammed w'.
Proof.
  intros Ef Ee Hp (Hflag & Hpend & Hint). split; [congruence |]. split.
  - intros c e eff Hc He. rewrite Ee in He. eauto.
  - by rewrite Ee.
Qed.

Lemma jammed_commit prev w : settled w → jammed w → jammed (commit prev w).
Proof.
  intros Hw (Hflag & Hpend & Hint). pose proof Hw as [Hold Hrefs].
  unfold commit. case_decide as Hs; [done |].
  split; [done |]. cbn [effects pending with_effects]. split.
  - intros c e eff Hc He.
    by destruct (old_effects_retired _ _ _ _ Hold He (Hrefs c e Hc)).
  - apply Forall_app. split.
    + apply Forall_lookup. intros i eff Hi.
      destruct (decide (i = pred (length (effects w)))) as [-> | Hne].
      * rewrite list_lookup_alter_eq in Hi.
        destruct (effects w !! pred (length (effects w))); by simplify_eq/=.
      * rewrite list_lookup_alter_ne in Hi by done.
        rewrite Forall_lookup in Hint. by eapply Hint.
    + apply Forall_singleton. intros _. exact Hflag.
Qed.

Lemma jammed_media_settled r media w :
  settled w → jammed w → jammed (media_settled r media w).
Proof.
  intros Hw Hj. unfold media_settled.
  destruct (requests w !! r) as [[|] |]; [destruct media | |]; try exact Hj;
    (apply jammed_commit; [exact Hw | revert Hj; by apply jammed_frame]).
Qed.

Lemma jammed_toggleCamera_begin w :
  settled w → jammed w → jammed (toggleCamera_begin w).
Proof.
  intros Hw Hj. unfold toggleCamera_begin.
  destruct (stream (app w)); [| exact Hj].
  apply jammed_commit; [exact Hw | revert Hj; by apply jammed_frame].
Qed.

Lemma jammed_handleDeviceChange_begin newDeviceId w :
  jammed w → jammed (handleDeviceChange_begin newDeviceId w).
Proof.
  destruct (handleDeviceChange_begin_frame newDeviceId w)
    as (_ & Ep & Ee & _ & _ & _ & _ & Ef & _).
  apply jammed_frame; [exact Ef | exact Ee | by rewrite Ep].
Qed.

(** Every registered timer belongs to a closure that closed over the set
    flag: its guard returns. *)
Lemma jammed_tick e env w : jammed w → tick e env w = w.
Proof.
  intros (_ & _ & Hint). unfold tick.
  destruct (effects w !! e) as [eff |] eqn:He; [| done].
  destruct (interval eff) eqn:Hi; [| done].
  rewrite Forall_lookup in Hint. unfold captureFrameAndAnalyze.
  rewrite (Hint e eff He Hi).
  by destruct (videoRef_current env), (eff_stream eff).
Qed.

Lemma jammed_resolve_timed c out clock w :
  jammed w →
  jammed (resolve_timed c out clock w).1
  ∧ dispatched (resolve_timed c out clock w).1 = dispatched w.
Proof.
  intros Hj. pose proof Hj as (Hflag & Hpend & Hint).
  destruct (pending w !! c) as [e |] eqn:Hc;
    [| unfold resolve_timed; by rewrite Hc].
  rewrite (resolve_timed_unmounted c out clock w e Hc).
  - split; [| done]. split; [done |]. split; [| done].
    intros c' e' eff' Hc' He'. cbn [pending with_pending] in Hc'.
    apply lookup_delete_Some in Hc' as [_ Hc']. by eapply Hpend.
  - destruct (effects w !! e) as [eff |] eqn:He; [| done]. by eapply Hpend.
Qed.

Lemma jammed_step w ev :
  coherent w → jammed w →
  jammed (step w ev) ∧ dispatched (step w ev) = dispatched w.
Proof.
  intros Hc Hj. pose proof Hc as (Hw & _).
  destruct ev as [media | newId media | enum | e env | c out now | type
                 | | newId | r media | c out clock]; cbn [step].
  - rewrite <- (dispatched_toggleCamera_begin w).
    pose proof (coherent_toggleCamera_begin w Hc) as (Hw' & _).
    unfold toggleCamera. destruct (stream (app w)).
    + split; [| done]. by apply jammed_toggleCamera_begin.
    + split; [| apply media_settled_frame].
      apply jammed_media_settled; [exact Hw' |].
      by apply jammed_toggleCamera_begin.
  - pose proof (handleDeviceChange_begin_frame newId w) as (Ed & _).
    pose proof (coherent_handleDeviceChange_begin newId w Hc) as (Hw' & _).
    rewrite <- Ed. unfold handleDeviceChange. destruct (stream (app w)).
    + split; [| apply media_settled_frame].
      apply jammed_media_settled; [exact Hw' |].
      by apply jammed_handleDeviceChange_begin.
    + split; [| done]. by apply jammed_handleDeviceChange_begin.
  - split; [| done]. revert Hj. apply jammed_frame; [| done | done].
    apply getDevices_frame.
  - by rewrite jammed_tick.
  - by apply jammed_resolve_timed.
  - split; [| done]. revert Hj. by apply jammed_frame.
  - split; [| apply dispatched_toggleCamera_begin].
    by apply jammed_toggleCamera_begin.
  - split; [| apply handleDeviceChange_begin_frame].
    by apply jammed_handleDeviceChange_begin.
  - split; [| apply media_settled_frame]. by apply jammed_media_settled.
  - by apply jammed_resolve_timed.
Qed.

Lemma jammed_run evs w :
  coherent w → jammed w →
  jammed (run w evs) ∧ dispatched (run w evs) = dispatched w.
Proof.
  revert w. induction evs as [| ev evs IH]; intros w Hw Hj; [done |].
  cbn [run fold_left].
  destruct (jammed_step w ev Hw Hj) as [Hj' Hd'].
  destruct (IH (step w ev) (coherent_step w ev Hw) Hj') as [Hj'' Hd''].
  split; [done |]. unfold run in *. congruence.
Qed.

End more_sessions.

(** In every reachable state, each displayed box carries a category that
    is recorded in [detectedWeedTypes]. *)
Theorem displayed_boxes_are_recorded (w : World) (box : LiveDetection.t) :
  reachable w →
  box ∈ liveDetections (app w) →
  LiveDetection.label box ∈ detectedWeedTypes (app w).
Proof.
  intros [evs ->] Hbox. revert box Hbox. apply labelled_run.
  intros box Hbox. by apply elem_of_nil in Hbox.
Qed.

Lemma displayed_boxes_are_recorded_witness :
  "Fat Hen" ∈ detectedWeedTypes (app Sample.showing).
Proof.
  apply (displayed_boxes_are_recorded Sample.showing
           {| LiveDetection.id := 1000;
              LiveDetection.x := 20%float;
              LiveDetection.y := 10%float;
              LiveDetection.w := 40%float;
              LiveDetection.h := 30.000000000000004%float;
              LiveDetection.label := "Fat Hen";
              LiveDetection.conf := 0.9%float |}).
  - exists [ToggleCamera (Some 7); Tick 1 ready;
            Resolve 0 (Sample.answer Sample.three) 1000; Tick 1 ready].
    reflexivity.
  - apply list_elem_of_singleton. reflexivity.
Defined.

(** The recorded categories only grow while no session is started or
    stopped by the camera button: ticks, settling calls, device switches,
    refreshes and filter toggles never remove a category. *)
Theorem detectedWeedTypes_grows (w : World) (evs : list Event) :
  Forall (λ ev, ¬ is_start ev) evs →
  detectedWeedTypes (app w) ⊆ detectedWeedTypes (app (run w evs)).
Proof.
  revert w. induction evs as [| ev evs IH]; intros w Hevs; [done |].
  apply Forall_cons in Hevs as [Hev Hevs]. cbn [run fold_left].
  etrans; [| apply IH, Hevs].
  assert (∀ c out clock,
            detectedWeedTypes (app w)
            ⊆ detectedWeedTypes (app (resolve_timed c out clock w).1)) as Hres.
  { intros c out clock. destruct (pending w !! c) as [e |] eqn:Hc;
      [| unfold resolve_timed; by rewrite Hc].
    destruct (resolve_timed_pending c out clock w e Hc)
      as (result & _ & _ & _ & -> & _).
    destruct (default false (isMounted <$> effects w !! e)); [| done].
    destruct (detections result); [set_solver | done]. }
  assert (∀ newId,
            detectedWeedTypes (app (handleDeviceChange_begin newId w))
            = detectedWeedTypes (app w)) as Hbegin.
  { intros newId. apply (handleDeviceChange_begin_frame newId w). }
  destruct ev as [media | newId media | enum | e env | c out now | type
                 | | newId | r media | c out clock]; cbn [step].
  - by destruct Hev.
  - rewrite <- (Hbegin newId) at 1. unfold handleDeviceChange.
    destruct (stream (app w)); [| done].
    by destruct (media_settled_frame (requested w) media
                   (handleDeviceChange_begin newId w)) as (_ & _ & _ & -> & _).
  - cbn [app with_app].
    by destruct (getDevices_frame enum (app w)) as (_ & _ & -> & _).
  - by destruct (tick_frame e env w) as (_ & _ & _ & -> & _).
  - apply Hres.
  - done.
  - by destruct Hev.
  - by rewrite Hbegin.
  - by destruct (media_settled_frame r media w) as (_ & _ & _ & -> & _).
  - apply Hres.
Qed.

Lemma detectedWeedTypes_grows_witness :
  detectedWeedTypes (app Sample.sampling)
  ⊆ detectedWeedTypes
      (app (run Sample.sampling
              [Resolve 0 (Sample.answer Sample.three) 1000; Tick 1 ready;
               ToggleWeedType "Fat Hen"])).
Proof.
  apply (detectedWeedTypes_grows Sample.sampling
           [Resolve 0 (Sample.answer Sample.three) 1000; Tick 1 ready;
            ToggleWeedType "Fat Hen"]).
  repeat constructor; exact (λ F : False, F).
Defined.

(** A tick that finds no video element, a video without enough data, no
    2D context, or a frame that cannot be encoded, makes no call; and when
    the closure of a mounted effect got past its guard, it leaves the
    in-flight flag cleared. *)
Theorem tick_not_ready (w : World) (e : nat) (env : TickEnv) :
  (videoRef_current env = None
   ∨ (∃ readyState, videoRef_current env = Some readyState ∧ readyState ≠ 4%Z)
   ∨ getContext_2d env = false
   ∨ is_Some (capture_throws env)) →
  dispatched (tick e env w) = dispatched w
  ∧ pending (tick e env w) = pending w
  ∧ (∀ eff s,
       effects w !! e = Some eff → interval eff = true → isMounted eff = true →
       eff_stream eff = Some s → eff_isLiveInferencing eff = false →
       is_Some (videoRef_current env) →
       isLiveInferencing (app (tick e env w)) = false).
Proof.
  intros Hnot.
  assert (∀ w0, dispatched (finally_clear e w0) = dispatched w0
                ∧ pending (finally_clear e w0) = pending w0) as Hfin.
  { intros w0. by destruct (finally_clear_frame e w0) as (_ & _ & _ & _ & _ & -> & ->). }
  assert (dispatched (tick e env w) = dispatched w
          ∧ pending (tick e env w) = pending w) as [Hd Hp].
  { unfold tick. destruct (effects w !! e) as [eff |]; [| done].
    destruct (interval eff); [| done]. unfold captureFrameAndAnalyze.
    destruct (videoRef_current env) as [readyState |] eqn:Hv; [| done].
    destruct (eff_stream eff); [| done].
    destruct (eff_isLiveInferencing eff); [done |].
    destruct (Z.eqb_spec readyState 4) as [-> | Hr]; cbn [negb];
      [| by destruct (Hfin (with_app (setIsLiveInferencing false)
                             (with_app (setIsLiveInferencing true) w)))
           as [-> ->]].
    destruct (getContext_2d env) eqn:Hctx;
      [| by destruct (Hfin (with_app (setIsLiveInferencing true) w)) as [-> ->]].
    destruct (capture_throws env) as [err |] eqn:Hthrow;
      [by destruct (Hfin (with_app (setIsLiveInferencing true) w)) as [-> ->] |].
    destruct Hnot as [Hn | [(r & Hn & Hne) | [Hn | [err Hn]]]]; congruence. }
  split; [exact Hd |]. split; [exact Hp |].
  intros eff s He Hi Hm Hs Hf [readyState Hv].
  assert (∀ w0, effects w0 = effects w →
                isLiveInferencing (app (finally_clear e w0)) = false) as Hclear.
  { intros w0 Hw0. unfold finally_clear. by rewrite Hw0, He, Hm. }
  unfold tick. rewrite He, Hi. unfold captureFrameAndAnalyze.
  rewrite Hv, Hs, Hf.
  destruct (negb (readyState =? 4)%Z) eqn:Hr; [by apply Hclear |].
  destruct (getContext_2d env) eqn:Hctx; [| by apply Hclear].
  destruct (capture_throws env) as [err |] eqn:Hthrow; [by apply Hclear |].
  apply negb_false_iff, Z.eqb_eq in Hr as ->.
  destruct Hnot as [Hn | [(r & Hn & Hne) | [Hn | [err' Hn]]]]; congruence.
Qed.

Lemma tick_not_ready_witness :
  let env := {| videoRef_current := Some 2%Z; getContext_2d := true;
                capture_throws := None |} in
  dispatched (tick 1 env Sample.showing) = dispatched Sample.showing
  ∧ pending (tick 1 env Sample.showing) = pending Sample.showing
  ∧ isLiveInferencing (app (tick 1 env Sample.showing)) = false.
Proof.
  intros env.
  destruct (tick_not_ready Sample.showing 1 env) as (Hd & Hp & Hflag).
  { right. left. exists 2%Z. split; [reflexivity | discriminate]. }
  split; [exact Hd |]. split; [exact Hp |].
  apply (Hflag {| eff_stream := Some 7; eff_isLiveInferencing := false;
                  isMounted := true; interval := true |} 7);
    try reflexivity.
  exists 2%Z. reflexivity.
Defined.

(** The first tick of a newly started session, meeting a ready video,
    makes a call exactly when the in-flight flag was clear at the start;
    then the call is awaited by the new effect and the flag is set. *)
Theorem first_tick (w : World) (s : MediaStream) :
  stream (app w) = None →
  let w1 := step w (ToggleCamera (Some s)) in
  let w2 := step w1 (Tick (length (effects w)) ready) in
  dispatched w2
  = (if isLiveInferencing (app w) then dispatched w else S (dispatched w))
  ∧ (isLiveInferencing (app w) = false →
     pending w2 !! dispatched w = Some (length (effects w))
     ∧ isLiveInferencing (app w2) = true).
Proof.
  intros Hs w1 w2. subst w1 w2. cbn [step].
  destruct (toggleCamera_start s w Hs) as (w0 & -> & Ha & He & Hp & Hd).
  unfold tick. rewrite <- He, <- Hd.
  pose proof (commit_current None (with_app (setStream (Some s)) w0)
                ltac:(cbn; discriminate)) as Hcur.
  cbn [effects with_app] in Hcur. rewrite Hcur. clear Hcur.
  cbn [interval run_effect app with_app stream setStream].
  rewrite bool_decide_eq_true_2 by eauto.
  unfold captureFrameAndAnalyze.
  cbn [videoRef_current ready eff_stream eff_isLiveInferencing run_effect
       stream setStream isLiveInferencing].
  rewrite Ha. destruct (isLiveInferencing (app w)) eqn:Hflag.
  - by rewrite dispatched_commit.
  - cbn [Z.eqb Pos.eqb negb getContext_2d capture_throws ready].
    cbn [dispatch dispatched pending app with_app].
    rewrite dispatched_commit, pending_commit. cbn [dispatched pending with_app].
    split; [done |]. intros _. split; [by rewrite lookup_insert_eq |].
    by rewrite app_commit.
Qed.

Lemma first_tick_witness :
  let w2 := step (step initial (ToggleCamera (Some 7))) (Tick 1 ready) in
  dispatched w2 = 1
  ∧ (isLiveInferencing (app initial) = false →
     pending w2 !! 0 = Some 1 ∧ isLiveInferencing (app w2) = true).
Proof.
  apply (first_tick initial 7). reflexivity.
Defined.

(** When a session is stopped while the in-flight flag is set, the flag
    stays set and no call of the analyzer is made ever again, whatever
    happens afterwards: new sessions, device switches, ticks and settling
    calls included. *)
Theorem stop_in_flight_jams
    (w : World) (s : MediaStream) (media : option MediaStream)
    (evs : list Event) :
  reachable w →
  stream (app w) = Some s →
  isLiveInferencing (app w) = true →
  let w' := run (step w (ToggleCamera media)) evs in
  dispatched w' = dispatched w ∧ isLiveInferencing (app w') = true.
Proof.
  intros Hreach Hs Hflag w'. subst w'.
  pose proof (coherent_step w (ToggleCamera media) (reachable_coherent w Hreach))
    as Hw'.
  assert (stream (app (step w (ToggleCamera media))) = None
          ∧ isLiveInferencing (app (step w (ToggleCamera media))) = true
          ∧ dispatched (step w (ToggleCamera media)) = dispatched w)
    as (Hs' & Hflag' & Hd).
  { cbn [step]. unfold toggleCamera, toggleCamera_begin.
    by rewrite Hs, app_commit, dispatched_commit. }
  destruct (coherent_quiet _ Hw' Hs') as (_ & Hint & Hpend).
  assert (jammed (step w (ToggleCamera media))) as Hj.
  { split; [exact Hflag' |]. split; [exact Hpend |].
    eapply Forall_impl; [exact Hint |]. cbn. intros eff ->. done. }
  destruct (jammed_run evs _ Hw' Hj) as [(Hflag'' & _) Hd'].
  split; [congruence | done].
Qed.

Lemma stop_in_flight_jams_witness :
  let w' := run (step Sample.sampling (ToggleCamera None))
              [Resolve 0 (Sample.answer Sample.three) 1000;
               ToggleCamera (Some 8); Tick 3 ready; Tick 3 ready] in
  dispatched w' = dispatched Sample.sampling
  ∧ isLiveInferencing (app w') = true.
Proof.
  apply (stop_in_flight_jams Sample.sampling 7 None
           [Resolve 0 (Sample.answer Sample.three) 1000;
            ToggleCamera (Some 8); Tick 3 ready; Tick 3 ready]).
  - exists [ToggleCamera (Some 7); Tick 1 ready]. reflexivity.
  - reflexivity.
  - reflexivity.
Defined.

(** When a mounted effect's awaited call settles, with whatever outcome,
    the in-flight flag is cleared and the call is no longer awaited. *)
Theorem resolve_clears_flag
    (w : World) (c e : nat) (eff : Effect)
    (out : geminiService.GeminiOutcome) (now : Z) :
  pending w !! c = Some e →
  effects w !! e = Some eff →
  isMounted eff = true →
  let w' := step w (Resolve c out now) in
  isLiveInferencing (app w') = false
  ∧ pending w' !! c = None
  ∧ dispatched w' = dispatched w.
Proof.
  intros Hc He Hm w'. subst w'. cbn [step].
  destruct (resolve_pending c out now w e Hc)
    as (result & _ & _ & _ & _ & _ & _ & _ & -> & ->).
  split; [| by rewrite lookup_delete_eq].
  unfold resolve, resolve_timed. rewrite Hc. unfold captureFrameAndAnalyze_resume.
  cbn [fst snd].
  match goal with
  | |- context [finally_clear e ?w0] =>
      assert (effects w0 = effects w) as Hw0
  end.
  { destruct (geminiService.analyzeWeedImage out geminiService.DatasetBeet)
      as [r | err]; cbn [fst snd]; [| done].
    cbn [effects with_pending].
    by destruct (default false (isMounted <$> effects w !! e)), (detections r). }
  unfold finally_clear. by rewrite Hw0, He, Hm.
Qed.

Lemma resolve_clears_flag_witness :
  let w' := step Sample.showing
              (Resolve 1 (geminiService.CallRejected Sample.offline) 2000) in
  isLiveInferencing (app w') = false
  ∧ pending w' !! 1 = None
  ∧ dispatched w' = dispatched Sample.showing.
Proof.
  apply (resolve_clears_flag Sample.showing 1 1
           {| eff_stream := Some 7; eff_isLiveInferencing := false;
              isMounted := true; interval := true |}
           (geminiService.CallRejected Sample.offline) 2000); reflexivity.
Defined.

(** A device switch during a session sets the selection, stops the old
    stream's tracks and awaits the new stream, the old one still being
    the state's; when its request fails, whatever happened in between,
    the state is left without stream, and from then on, as long as the
    camera button is not pressed and no other [getUserMedia] request
    delivers a stream, no tick and no settling call makes a call of the
    analyzer; the displayed boxes and the recorded categories are not
    cleared but kept as they were. *)
Theorem handleDeviceChange_failure
    (w : World) (s : MediaStream) (newDeviceId : string)
    (between evs : list Event) :
  reachable w →
  stream (app w) = Some s →
  let w0 := step w (DeviceChangeRequested newDeviceId) in
  let w1 := run w0 between in
  requests w1 !! requested w = Some ByHandleDeviceChange →
  Forall (λ ev, ¬ is_start ev ∧ ¬ delivers_stream ev) evs →
  let w2 := step w1 (MediaSettled (requested w) None) in
  let w' := run w2 evs in
  (selectedDeviceId (app w0) = newDeviceId
   ∧ s ∈ stoppedStreams w0
   ∧ stream (app w0) = Some s
   ∧ requests w0 !! requested w = Some ByHandleDeviceChange)
  ∧ stream (app w2) = None
  ∧ stream (app w') = None
  ∧ dispatched w' = dispatched w1
  ∧ liveDetections (app w') = liveDetections (app w1)
  ∧ detectedWeedTypes (app w') = detectedWeedTypes (app w1).
Proof.
  intros Hreach Hs w0 w1 Hreq Hevs w2 w'. subst w0 w1 w2 w'.
  split.
  { cbn [step]. unfold handleDeviceChange_begin. rewrite Hs.
    cbn [app request_media stop_tracks with_app selectedDeviceId
         setSelectedDeviceId stoppedStreams stream requests requested].
    rewrite lookup_insert_eq. repeat split; try done. by left. }
  set (w1 := run (step w (DeviceChangeRequested newDeviceId)) between) in *.
  assert (coherent (step w1 (MediaSettled (requested w) None))) as Hw2.
  { apply coherent_step, reachable_coherent, reachable_run, reachable_step.
    exact Hreach. }
  assert (stream (app (step w1 (MediaSettled (requested w) None))) = None)
    as Hs2.
  { cbn [step]. by rewrite media_settled_stream, Hreq. }
  destruct (quiet_run evs _ Hw2 Hs2 Hevs) as (E1 & E2 & E3 & E4).
  destruct (media_settled_frame (requested w) None w1)
    as (F1 & _ & F2 & F3 & _).
  cbn [step] in *. repeat split; congruence.
Qed.

Lemma handleDeviceChange_failure_witness :
  let w0 := step Sample.showing (DeviceChangeRequested "cam-b") in
  let w1 := run w0 [Tick 1 ready] in
  let w2 := step w1 (MediaSettled 1 None) in
  let w' := run w2 [Tick 1 ready; Resolve 1 (Sample.answer Sample.three) 5000] in
  (selectedDeviceId (app w0) = "cam-b"
   ∧ 7 ∈ stoppedStreams w0
   ∧ stream (app w0) = Some 7
   ∧ requests w0 !! 1 = Some ByHandleDeviceChange)
  ∧ stream (app w2) = None
  ∧ stream (app w') = None
  ∧ dispatched w' = dispatched w1
  ∧ liveDetections (app w') = liveDetections (app w1)
  ∧ detectedWeedTypes (app w') = detectedWeedTypes (app w1).
Proof.
  apply (handleDeviceChange_failure Sample.showing 7 "cam-b" [Tick 1 ready]
           [Tick 1 ready; Resolve 1 (Sample.answer Sample.three) 5000]).
  - exists [ToggleCamera (Some 7); Tick 1 ready;
            Resolve 0 (Sample.answer Sample.three) 1000; Tick 1 ready].
    reflexivity.
  - reflexivity.
  - reflexivity.
  - repeat constructor; exact (λ F : False, F).
Defined.



(* ===================================================================== *)
(** ** Further facts about the mapping of detections                      *)
(* ===================================================================== *)

Section ids.

Lemma omap_imap_ids (f : nat → DetectionResult → option LiveDetection.t)
    (now : nat → Z) (k : nat) ds :
  (∀ i j, i ≤ j → (now i ≤ now j)%Z) →
  (∀ i d r, f i d = Some r →
            LiveDetection.id r = (now (k + i)%nat + Z.of_nat (k + i))%Z) →
  NoDup (LiveDetection.id <$> omap (λ o : option LiveDetection.t, o) (imap f ds))
  ∧ Forall (λ r, ∃ i, i < length ds
                      ∧ LiveDetection.id r = (now (k + i)%nat + Z.of_nat (k + i))%Z)
      (omap (λ o : option LiveDetection.t, o) (imap f ds)).
Proof.
  intros Hmono. revert f k. induction ds as [| d ds IH]; intros f k Hf.
  - split; constructor.
  - rewrite imap_cons. cbn [omap list_omap length].
    destruct (IH (f ∘ S) (S k)) as [IHn IHb].
    { intros i d' r Hr. rewrite (Hf (S i) d' r Hr).
      by replace (k + S i) with (S k + i) by lia. }
    assert (Forall (λ r, ∃ i, i < S (length ds)
                              ∧ LiveDetection.id r
                                = (now (k + i)%nat + Z.of_nat (k + i))%Z)
              (omap (λ o : option LiveDetection.t, o) (imap (f ∘ S) ds))) as Hb.
    { eapply Forall_impl; [exact IHb |]. cbn. intros r (i & Hi & Hr).
      exists (S i). split; [lia |].
      by replace (k + S i) with (S k + i) by lia. }
    destruct (f 0 d) as [r |] eqn:Hr; [| done].
    pose proof (Hf 0 d r Hr) as Hid. split.
    + cbn [fmap list_fmap]. apply NoDup_cons. split; [| exact IHn].
      intros (r' & Heq & Hin)%list_elem_of_fmap.
      rewrite Forall_forall in IHb. destruct (IHb r' Hin) as (i & _ & Hr').
      pose proof (Hmono (k + 0) (S k + i) ltac:(lia)). lia.
    + apply Forall_cons. split; [| exact Hb]. exists 0. split; [lia | done].
Qed.

End ids.

(** Within one cycle, provided the clock does not step back while the
    detections are mapped, the boxes get pairwise different ids, each
    between the time the mapping started at and the time it ended at plus
    the number of detections. *)
Theorem mappedDetections_ids (now : nat → Z) (ds : list DetectionResult) :
  (∀ i j, i ≤ j → (now i ≤ now j)%Z) →
  NoDup (LiveDetection.id <$> mappedDetections now ds)
  ∧ Forall (λ r, (now 0%nat ≤ LiveDetection.id r
                  < now (pred (length ds)) + Z.of_nat (length ds))%Z)
      (mappedDetections now ds).
Proof.
  intros Hmono. unfold mappedDetections.
  destruct (omap_imap_ids (λ i d, mapDetection (now i) i d) now 0 ds Hmono)
    as [Hn Hb].
  - intros i d r. unfold mapDetection. destruct (bbox d) as [b |]; [| done].
    destruct (length b <? 4); [done |]. by intros [= <-].
  - split; [exact Hn |]. eapply Forall_impl; [exact Hb |].
    cbn. intros r (i & Hi & ->).
    pose proof (Hmono 0 i ltac:(lia)).
    pose proof (Hmono i (pred (length ds)) ltac:(lia)). lia.
Qed.

Lemma mappedDetections_ids_witness :
  let now := λ i : nat, (1000 + Z.of_nat i)%Z in
  let ds := [Sample.boxed; Sample.boxed; Sample.boxed] in
  NoDup (LiveDetection.id <$> mappedDetections now ds)
  ∧ Forall (λ r, (1000 ≤ LiveDetection.id r < 1002 + 3)%Z)
      (mappedDetections now ds).
Proof.
  apply (mappedDetections_ids (λ i : nat, (1000 + Z.of_nat i)%Z)
           [Sample.boxed; Sample.boxed; Sample.boxed]).
  intros i j Hij. lia.
Defined.

(** The condition on the clock is needed: when the clock steps back by
    one between two elements, both boxes get the same id. *)
Lemma mappedDetections_ids_clock :
  let now := λ i : nat, if (i =? 0)%nat then 1001%Z else 1000%Z in
  LiveDetection.id <$> mappedDetections now [Sample.boxed; Sample.boxed]
  = [1001%Z; 1001%Z].
Proof. reflexivity. Qed.

(* ===================================================================== *)
(** ** The sampling timer                                                 *)
(* ===================================================================== *)


(** In every reachable state at most one timer is registered: a timer
    belongs to the last effect, which closed over the current stream, and
    there is a stream; and whenever there is a stream, the last effect is
    mounted and holds a timer. *)
Theorem single_timer (w : World) :
  reachable w →
  (∀ i eff, effects w !! i = Some eff → interval eff = true →
            S i = length (effects w)
            ∧ eff_stream eff = stream (app w)
            ∧ is_Some (stream (app w)))
  ∧ (is_Some (stream (app w)) →
     ∃ eff, last (effects w) = Some eff
            ∧ isMounted eff = true ∧ interval eff = true).
Proof.
  intros Hreach.
  destruct (reachable_coherent w Hreach)
    as ([Hold _] & _ & (cur & Hlast & Hs & Hm & Hi)).
  split.
  - intros i eff Heff Hint.
    pose proof (lookup_lt_Some _ _ _ Heff) as Hlt.
    destruct (decide (S i = length (effects w))) as [Hi' | Hi'].
    + rewrite last_lookup, <- Hi' in Hlast. cbn [pred] in Hlast.
      assert (cur = eff) as -> by congruence.
      split; [done |]. split; [done |].
      rewrite Hint in Hi. symmetry in Hi. by apply bool_decide_eq_true in Hi.
    + destruct (Hold i eff Heff ltac:(lia)) as [_ Hoff]. congruence.
  - intros Hstream. exists cur. split; [done |]. split; [done |].
    by rewrite Hi, bool_decide_eq_true.
Qed.

Lemma single_timer_witness :
  (∀ i eff, effects Sample.showing !! i = Some eff → interval eff = true →
            S i = length (effects Sample.showing)
            ∧ eff_stream eff = stream (app Sample.showing)
            ∧ is_Some (stream (app Sample.showing)))
  ∧ (is_Some (stream (app Sample.showing)) →
     ∃ eff, last (effects Sample.showing) = Some eff
            ∧ isMounted eff = true ∧ interval eff = true).
Proof.
  apply (single_timer Sample.showing).
  exists [ToggleCamera (Some 7); Tick 1 ready;
          Resolve 0 (Sample.answer Sample.three) 1000; Tick 1 ready].
  reflexivity.
Defined.

(* ===================================================================== *)
(** ** A stream that arrives after the stop                               *)
(* ===================================================================== *)

Section restart.
Implicit Types (w : World).

(** A stream that a device switch awaited is installed when it arrives,
    whatever the state has become. *)
Lemma late_stream w r newStream :
  requests w !! r = Some ByHandleDeviceChange →
  stream (app w) = None →
  ∃ w0, media_settled r (Some newStream) w
        = commit None (with_app (setStream (Some newStream)) w0)
        ∧ app w0 = app w ∧ effects w0 = effects w ∧ pending w0 = pending w
        ∧ dispatched w0 = dispatched w.
Proof.
  intros Hr Hs. unfold media_settled. rewrite Hr, Hs. by eexists.
Qed.

(** The effect that runs when a stream is installed, and its first tick. *)
Lemma installed_stream_tick newStream w :
  let w' := commit None (with_app (setStream (Some newStream)) w) in
  stream (app w') = Some newStream
  ∧ effects w' !! length (effects w)
    = Some {| eff_stream := Some newStream;
              eff_isLiveInferencing := isLiveInferencing (app w);
              isMounted := true; interval := true |}
  ∧ dispatched (tick (length (effects w)) ready w')
    = (if isLiveInferencing (app w) then dispatched w else S (dispatched w)).
Proof.
  intros w'. subst w'.
  pose proof (commit_current None (with_app (setStream (Some newStream)) w)
                ltac:(cbn; discriminate)) as Hcur.
  cbn [effects with_app] in Hcur.
  split; [by rewrite app_commit |]. split.
  - rewrite Hcur. unfold run_effect. by cbn.
  - unfold tick. rewrite Hcur.
    cbn [interval run_effect app with_app stream setStream].
    rewrite bool_decide_eq_true_2 by eauto.
    unfold captureFrameAndAnalyze.
    cbn [videoRef_current ready eff_stream eff_isLiveInferencing run_effect
         stream setStream isLiveInferencing].
    destruct (isLiveInferencing (app w)); by rewrite ?dispatched_commit.
Qed.

End restart.

(** A device switch that still awaits its stream when the session is
    stopped outlives the stop: when the stream arrives it is installed and
    the effect runs again, mounted and with a timer; unless the in-flight
    flag was set at the stop, the tick of that timer, meeting a ready
    video, makes a call of the analyzer, the camera button not having
    been pressed again. *)
Theorem switch_outlives_stop
    (w : World) (s newStream : MediaStream) (r : nat)
    (media : option MediaStream) :
  stream (app w) = Some s →
  requests w !! r = Some ByHandleDeviceChange →
  let w1 := step w (ToggleCamera media) in
  let w2 := step w1 (MediaSettled r (Some newStream)) in
  let e := S (length (effects w)) in
  stream (app w1) = None
  ∧ stream (app w2) = Some newStream
  ∧ effects w2 !! e
    = Some {| eff_stream := Some newStream;
              eff_isLiveInferencing := isLiveInferencing (app w);
              isMounted := true; interval := true |}
  ∧ dispatched (step w2 (Tick e ready))
    = (if isLiveInferencing (app w) then dispatched w else S (dispatched w)).
Proof.
  intros Hs Hr w1 w2 e. subst w1 w2 e. cbn [step].
  assert (stream (app (toggleCamera media w)) = None
          ∧ isLiveInferencing (app (toggleCamera media w))
            = isLiveInferencing (app w)
          ∧ dispatched (toggleCamera media w) = dispatched w
          ∧ requests (toggleCamera media w) = requests w
          ∧ length (effects (toggleCamera media w)) = S (length (effects w)))
    as (Hs1 & Hf1 & Hd1 & Hr1 & Hl1).
  { unfold toggleCamera, toggleCamera_begin. rewrite Hs.
    rewrite app_commit, dispatched_commit. unfold commit.
    rewrite decide_False by done.
    cbn [app with_app stop_tracks with_effects requests effects stream
         setStream setLiveDetections setDetectedWeedTypes isLiveInferencing
         dispatched].
    rewrite length_app, length_alter. cbn [length]. repeat split. lia. }
  rewrite <- Hr1 in Hr.
  destruct (late_stream _ r newStream Hr Hs1) as (w0 & -> & Ha & He & _ & Hd).
  destruct (installed_stream_tick newStream w0) as (E1 & E2 & E3).
  rewrite He, Hl1, Ha, Hf1, Hd, Hd1 in *. by repeat split.
Qed.

Lemma switch_outlives_stop_witness :
  let w1 := step Sample.switching (ToggleCamera None) in
  let w2 := step w1 (MediaSettled 1 (Some 8)) in
  stream (app w1) = None
  ∧ stream (app w2) = Some 8
  ∧ effects w2 !! 3
    = Some {| eff_stream := Some 8; eff_isLiveInferencing := false;
              isMounted := true; interval := true |}
  ∧ dispatched (step w2 (Tick 3 ready)) = 1.
Proof.
  apply (switch_outlives_stop Sample.switching 7 8 1 None); reflexivity.
Defined.
